(** * Skill dependency resolver: a shallow embedding of
    [scripts/skill_resolver.py] and the properties of its resolution,
    validation, cycle-detection and tool-aggregation engine. *)

From stdpp Require Import gmap strings list relations.

(* stdpp's solvers clear hypotheses by name; Rocq 9.3 reports each miss. *)
Local Set Warnings "-clear-no-such-hyp".

Local Open Scope string_scope.
Local Open Scope list_scope.

(** ** Python dictionaries

    A Python [dict] keeps its keys unique and iterates in insertion order;
    assigning to an existing key keeps the key's position.  Registries and
    the tool index are such dictionaries, so they are association lists
    written through [PyDict.set]. *)

Module PyDict.

Definition dict (V : Type) : Type := list (string * V).

(** [d.get(k)] *)
Fixpoint get {V} (d : dict V) (k : string) : option V :=
  match d with
  | [] => None
  | (k', v) :: d' => if decide (k' = k) then Some v else get d' k
  end.

(** [k in d] *)
Definition mem {V} (d : dict V) (k : string) : bool :=
  match get d k with Some _ => true | None => false end.

(** [d[k] = v] *)
Fixpoint set {V} (d : dict V) (k : string) (v : V) : dict V :=
  match d with
  | [] => [(k, v)]
  | (k', v') :: d' =>
      if decide (k' = k) then (k', v) :: d' else (k', v') :: set d' k v
  end.

(** [list(d)]: the keys, in iteration order *)
Definition keys {V} (d : dict V) : list string := map fst d.

(** The key set of [d]. *)
Definition dom {V} (d : dict V) : gset string := list_to_set (keys d).

End PyDict.

(** ** Data classes *)

(** Values of type [Any]: what [yaml.safe_load], or the line-based
    fallback of [parse_frontmatter], can put into a frontmatter.  A
    dictionary is the list of its items (its keys are unique).
    [PyOther] stands for a value of any other type (a float, a date,
    bytes, a set, a tuple), given by what the loader can observe of it:
    its truth value, its elements when it is iterable, and whether it is
    hashable; no such value has a [get] method. *)
#[warnings="-register-all"]
Inductive PyAny : Type :=
| PyNone
| PyStr (s : string)
| PyBool (b : bool)
| PyInt (z : Z)
| PyList (items : list PyAny)
| PyMap (items : list (PyAny * PyAny))
| PyOther (truth : bool) (elements : option (list PyAny)) (hashable : bool).

Record ToolParameter : Type := {
  param_name : string;
  param_type : string;
  param_required : bool;
  param_default : PyAny;
  param_description : string
}.

Record ToolDefinition : Type := {
  tool_name : string;
  tool_category : string;
  tool_description : string;
  tool_command : string;
  tool_parameters : list ToolParameter;
  tool_examples : list string;
  tool_aliases : list string
}.

Record SkillDependency : Type := {
  dep_name : string;
  dep_required : bool;
  dep_reason : string;
  dep_auto_load : bool
}.

Record PackageDependency : Type := {
  pkg_name : string;
  pkg_version : string;
  pkg_install : string
}.

Record EnvironmentRequirement : Type := {
  env_name : string;
  env_required : bool;
  env_description : string
}.

(** The [dependencies] dictionary of a skill has the three keys ["skills"],
    ["packages"] and ["environment"]; every reader goes through
    [.get(key, [])], so an absent key and an empty list are the same. *)
Record DependencySpec : Type := {
  deps_skills : list SkillDependency;
  deps_packages : list PackageDependency;
  deps_environment : list EnvironmentRequirement
}.

Record SkillMeta : Type := {
  meta_name : string;
  meta_description : string;
  meta_version : string;
  meta_path : string;
  meta_tools : list ToolDefinition;
  meta_dependencies : DependencySpec;
  meta_prerequisites : PyDict.dict PyAny;
  meta_performance : PyDict.dict PyAny;
  meta_raw_frontmatter : PyDict.dict PyAny
}.

Abbreviation registry := (PyDict.dict SkillMeta).

(** ** Instances at run time

    A dataclass does not check its fields: the instances built by
    [parse_tool] and [parse_skill] hold whatever the frontmatter holds
    under each key.  These records are the instances as built; the
    records above are the instances that respect the declared field
    types, on which the resolver works. *)








(** ** Exceptions

    The loader catches nothing: an exception raised while a frontmatter
    is read ends [parse_skill] and [collect_all_skills]. *)

Inductive PyExn : Type :=
| TypeError
| AttributeError
| OtherError (name : string).

Inductive result (A : Type) : Type :=
| Ok (a : A)
| Raise (e : PyExn).

Arguments Ok {A} a.
Arguments Raise {A} e.

#[global] Instance result_ret : MRet result := fun A a => Ok a.

#[global] Instance result_bind : MBind result := fun A B f m =>
  match m with
  | Ok a => f a
  | Raise e => Raise e
  end.


(** ** The operations the loader applies to a value *)






(** ** Loading the registry: [parse_skill] and [collect_all_skills]

    Reading the file tree and decoding YAML are outside the resolver; a
    skill directory is represented by what [parse_skill] observes of it:
    whether it is a directory, and what looking for its [SKILL.md],
    reading it and calling [parse_frontmatter] on its text gives: no such
    file, an exception (the file cannot be read or decoded), or the value
    [parse_frontmatter] returns. *)



(** Truth value of [d.get(key)] for a string-valued key. *)
Definition truthy (v : option string) : bool :=
  match v with
  | None => false
  | Some s => if decide (s = "") then false else true
  end.



(** ** Instances that respect the declared field types

    [typed_skill meta] is the record of the declared types that [meta]
    is, when every field of [meta] holds a value of its declared type, and
    [None] otherwise. *)













(** ** Validation *)

(** [validate_skill], with the process environment [os.environ] passed
    explicitly. *)
Definition validate_skill (environ : gmap string string)
    (skill_name : string) (skills : registry) : list string :=
  let errors : list string := [] in
  match PyDict.get skills skill_name with
  | None => ["Skill '" +:+ skill_name +:+ "' not found"]
  | Some skill =>
      let errors :=
        fold_left
          (fun errors dep =>
             if negb (PyDict.mem skills (dep_name dep)) then
               errors ++ ["Missing dependency: '" +:+ dep_name dep
                            +:+ "' required by '" +:+ skill_name +:+ "'"]
             else errors)
          (deps_skills (meta_dependencies skill)) errors in
      let errors :=
        fold_left
          (fun errors env =>
             if env_required env then
               if negb (truthy (environ !! env_name env)) then
                 errors ++ ["Missing required environment variable: "
                              +:+ env_name env]
               else errors
             else errors)
          (deps_environment (meta_dependencies skill)) errors in
      let errors :=
        fold_left
          (fun errors tool =>
             let errors :=
               if decide (tool_name tool = "") then
                 errors ++ ["Tool missing 'name' in skill '" +:+ skill_name +:+ "'"]
               else errors in
             if decide (tool_category tool = "") then
               errors ++ ["Tool '" +:+ tool_name tool
                            +:+ "' missing 'category' in skill '"
                            +:+ skill_name +:+ "'"]
             else errors)
          (meta_tools skill) errors in
      errors
  end.

Definition check_all_dependencies (environ : gmap string string)
    (skills : registry) : PyDict.dict (list string) :=
  fold_left
    (fun results skill_name =>
       let errors := validate_skill environ skill_name skills in
       match errors with
       | [] => results
       | _ => PyDict.set results skill_name errors
       end)
    (PyDict.keys skills) [].

(** ** Recursion

    The three traversals below are recursive closures or functions whose
    recursion is not structural.  Each is written with an explicit budget
    [fuel] on the recursion depth; [None] means the budget ran out, and a
    result [Some _] is a complete run of the Python function.  The entry
    points use one more than the number of registered skills, which the
    termination lemmas show to be enough on every registry. *)

(** ** Cycle detection

    [dfs] is the closure inside [detect_circular_dependencies].  The set
    [visited] is one mutable object shared by a whole traversal, [cycles]
    is the enclosing function's list, and [path] is copied at every call,
    so it is passed by value. *)

(** [path.index(x)] for an [x] that occurs in [path]. *)
Fixpoint index (path : list string) (x : string) : nat :=
  match path with
  | [] => 0
  | y :: path' => if decide (y = x) then 0 else S (index path' x)
  end.

Definition dfs_state : Type := gset string * list (list string).

Fixpoint dfs_deps (rec : string -> dfs_state -> option dfs_state)
    (skills : registry) (deps : list SkillDependency) (st : dfs_state)
    : option dfs_state :=
  match deps with
  | [] => Some st
  | dep :: deps' =>
      if PyDict.mem skills (dep_name dep) then
        st' ← rec (dep_name dep) st;
        dfs_deps rec skills deps' st'
      else dfs_deps rec skills deps' st
  end.

Fixpoint dfs (fuel : nat) (skills : registry) (skill_name : string)
    (path : list string) (st : dfs_state) : option dfs_state :=
  match fuel with
  | 0 => None
  | S fuel' =>
      let '(visited, cycles) := st in
      if decide (skill_name ∈ path) then
        let cycle_start := index path skill_name in
        Some (visited, cycles ++ [drop cycle_start path ++ [skill_name]])
      else if decide (skill_name ∈ visited) then Some (visited, cycles)
      else
        let visited := visited ∪ {[skill_name]} in
        let path := path ++ [skill_name] in
        match PyDict.get skills skill_name with
        | Some skill =>
            dfs_deps (fun name => dfs fuel' skills name path) skills
              (deps_skills (meta_dependencies skill)) (visited, cycles)
        | None => Some (visited, cycles)
        end
  end.

Fixpoint detect_from (skills : registry) (names : list string)
    (cycles : list (list string)) : option (list (list string)) :=
  match names with
  | [] => Some cycles
  | skill_name :: names' =>
      '(_, cycles') ← dfs (S (length skills)) skills skill_name [] (∅, cycles);
      detect_from skills names' cycles'
  end.

Definition detect_circular_dependencies (skills : registry)
    : option (list (list string)) :=
  detect_from skills (PyDict.keys skills) [].

(** ** Dependency resolution

    [resolved] and [unresolved] are two mutable sets shared by the whole
    call tree; they are threaded through the recursion together with the
    returned [(order, missing)]. *)

Definition resolve_result : Type :=
  list string * list string * gset string * gset string.

Fixpoint resolve_deps
    (rec : string -> gset string -> gset string -> option resolve_result)
    (deps : list SkillDependency) (order missing : list string)
    (resolved unresolved : gset string) : option resolve_result :=
  match deps with
  | [] => Some (order, missing, resolved, unresolved)
  | dep :: deps' =>
      if dep_required dep || dep_auto_load dep then
        '(dep_order, dep_missing, resolved, unresolved) ←
          rec (dep_name dep) resolved unresolved;
        resolve_deps rec deps' (order ++ dep_order) (missing ++ dep_missing)
          resolved unresolved
      else resolve_deps rec deps' order missing resolved unresolved
  end.

Fixpoint resolve_skill_dependencies_fuel (fuel : nat) (skills : registry)
    (skill_name : string) (resolved unresolved : gset string)
    : option resolve_result :=
  match fuel with
  | 0 => None
  | S fuel' =>
      if decide (skill_name ∈ unresolved) then
        Some ([], ["Circular dependency detected: " +:+ skill_name],
              resolved, unresolved)
      else if decide (skill_name ∈ resolved) then
        Some ([], [], resolved, unresolved)
      else
        match PyDict.get skills skill_name with
        | None =>
            Some ([], ["Skill not found: " +:+ skill_name], resolved, unresolved)
        | Some skill =>
            let unresolved := unresolved ∪ {[skill_name]} in
            '(order, missing, resolved, unresolved) ←
              resolve_deps (resolve_skill_dependencies_fuel fuel' skills)
                (deps_skills (meta_dependencies skill)) [] []
                resolved unresolved;
            let unresolved := unresolved ∖ {[skill_name]} in
            let resolved := resolved ∪ {[skill_name]} in
            let order := order ++ [skill_name] in
            Some (order, missing, resolved, unresolved)
        end
  end.

(** The call [resolve_skill_dependencies(skill_name, skills)]: both sets
    default to fresh empty sets. *)
Definition resolve_skill_dependencies (skill_name : string) (skills : registry)
    : option (list string * list string) :=
  '(order, missing, _, _) ←
    resolve_skill_dependencies_fuel (S (length skills)) skills skill_name ∅ ∅;
  Some (order, missing).

(** ** Tool aggregation *)

Definition tools_state : Type := gset string * list ToolDefinition.

Fixpoint collect_tools_deps (rec : string -> tools_state -> option tools_state)
    (deps : list SkillDependency) (st : tools_state) : option tools_state :=
  match deps with
  | [] => Some st
  | dep :: deps' =>
      if dep_auto_load dep then
        st' ← rec (dep_name dep) st;
        collect_tools_deps rec deps' st'
      else collect_tools_deps rec deps' st
  end.

(** The closure [collect_tools] of [get_tools_for_skill]; its state is the
    set [resolved] and the list [all_tools] of the enclosing call. *)
Fixpoint collect_tools (fuel : nat) (skills : registry) (name : string)
    (st : tools_state) : option tools_state :=
  match fuel with
  | 0 => None
  | S fuel' =>
      let '(resolved, all_tools) := st in
      if decide (name ∈ resolved) then Some st
      else
        match PyDict.get skills name with
        | None => Some st
        | Some skill =>
            let resolved := resolved ∪ {[name]} in
            '(resolved, all_tools) ←
              collect_tools_deps (collect_tools fuel' skills)
                (deps_skills (meta_dependencies skill)) (resolved, all_tools);
            Some (resolved, all_tools ++ meta_tools skill)
        end
  end.

Definition get_tools_for_skill (skill_name : string) (skills : registry)
    : option (list ToolDefinition) :=
  '(_, all_tools) ← collect_tools (S (length skills)) skills skill_name (∅, []);
  Some all_tools.

(** The manifest; [tool_def] is the dictionary built for one tool, which
    has the fields of the tool itself. *)
Record Manifest : Type := {
  manifest_skill : string;
  manifest_tools : list ToolDefinition;
  manifest_tool_index : PyDict.dict ToolDefinition
}.

Definition tool_def (tool : ToolDefinition) : ToolDefinition :=
  {| tool_name := tool_name tool;
     tool_category := tool_category tool;
     tool_description := tool_description tool;
     tool_command := tool_command tool;
     tool_parameters :=
       map (fun p =>
              {| param_name := param_name p;
                 param_type := param_type p;
                 param_required := param_required p;
                 param_default := param_default p;
                 param_description := param_description p |})
         (tool_parameters tool);
     tool_examples := tool_examples tool;
     tool_aliases := tool_aliases tool |}.

Definition manifest_add (manifest : Manifest) (tool : ToolDefinition) : Manifest :=
  let tool_def := tool_def tool in
  let tools := manifest_tools manifest ++ [tool_def] in
  let tool_index := PyDict.set (manifest_tool_index manifest) (tool_name tool) tool_def in
  let tool_index :=
    fold_left (fun tool_index alias => PyDict.set tool_index alias tool_def)
      (tool_aliases tool) tool_index in
  {| manifest_skill := manifest_skill manifest;
     manifest_tools := tools;
     manifest_tool_index := tool_index |}.

Definition generate_tool_manifest (skill_name : string) (skills : registry)
    : option Manifest :=
  tools ← get_tools_for_skill skill_name skills;
  let manifest := {| manifest_skill := skill_name;
                     manifest_tools := [];
                     manifest_tool_index := [] |} in
  Some (fold_left manifest_add tools manifest).

(** ** Graph export *)

Section replace.
Import Strings.Ascii.

End replace.





(** ** Graph vocabulary used by the statements *)

(** [ordering_edge skills s d]: the skill registered as [s] declares a
    dependency on [d] that the resolver follows (required or auto-load). *)
Definition ordering_edge (skills : registry) (s d : string) : Prop :=
  ∃ skill dep,
    PyDict.get skills s = Some skill ∧
    dep ∈ deps_skills (meta_dependencies skill) ∧
    dep_name dep = d ∧
    dep_required dep || dep_auto_load dep = true.

(** [auto_edge skills s d]: [s] declares an auto-load dependency on [d]. *)
Definition auto_edge (skills : registry) (s d : string) : Prop :=
  ∃ skill dep,
    PyDict.get skills s = Some skill ∧
    dep ∈ deps_skills (meta_dependencies skill) ∧
    dep_name dep = d ∧
    dep_auto_load dep = true.

(** [any_edge skills s d]: [s] declares a dependency of any kind on the
    registered skill [d]. *)
Definition any_edge (skills : registry) (s d : string) : Prop :=
  ∃ skill dep,
    PyDict.get skills s = Some skill ∧
    dep ∈ deps_skills (meta_dependencies skill) ∧
    dep_name dep = d ∧
    PyDict.mem skills d = true.

Definition acyclic (R : relation string) : Prop := ∀ x, ¬ tc R x x.

(** Names of the dependencies the resolver follows, in declaration order. *)
Definition ordering_deps (skill : SkillMeta) : list string :=
  map dep_name
    (filter (fun dep => dep_required dep || dep_auto_load dep = true)
       (deps_skills (meta_dependencies skill))).

(** Names of the auto-load dependencies, in declaration order. *)
Definition auto_deps (skill : SkillMeta) : list string :=
  map dep_name
    (filter (fun dep => dep_auto_load dep = true)
       (deps_skills (meta_dependencies skill))).

(** Consecutive elements of [l] are related by [R]. *)
Fixpoint chain (R : relation string) (l : list string) : Prop :=
  match l with
  | x :: (y :: _) as l' => R x y ∧ chain R l'
  | _ => True
  end.

(** The messages one dependency, one environment requirement and one tool
    contribute to [validate_skill]. *)
Definition dep_errors (skills : registry) (skill_name : string)
    (dep : SkillDependency) : list string :=
  if negb (PyDict.mem skills (dep_name dep)) then
    ["Missing dependency: '" +:+ dep_name dep
       +:+ "' required by '" +:+ skill_name +:+ "'"]
  else [].

Definition env_errors (environ : gmap string string)
    (env : EnvironmentRequirement) : list string :=
  if env_required env then
    if negb (truthy (environ !! env_name env)) then
      ["Missing required environment variable: " +:+ env_name env]
    else []
  else [].

Definition tool_errors (skill_name : string) (tool : ToolDefinition) : list string :=
  (if decide (tool_name tool = "") then
     ["Tool missing 'name' in skill '" +:+ skill_name +:+ "'"]
   else []) ++
  (if decide (tool_category tool = "") then
     ["Tool '" +:+ tool_name tool +:+ "' missing 'category' in skill '"
        +:+ skill_name +:+ "'"]
   else []).




(** A call of the aggregator's recursion returns, and only adds to the
    memoization set, whenever fewer than [n] registered names are still
    outside that set. *)
Definition tools_call_ok (skills : registry) (n : nat)
    (rec : string → tools_state → option tools_state) : Prop :=
  ∀ name st, (size (PyDict.dom skills ∖ st.1) < n)%nat →
    ∃ st', rec name st = Some st' ∧ st.1 ⊆ st'.1.

(** The lookup keys a tool is indexed under: its name, then its aliases. *)
Definition tool_keys (tool : ToolDefinition) : list string :=
  tool_name tool :: tool_aliases tool.

(** The resolver's loop, seen over the names it actually recurses into. *)
Fixpoint resolve_names
    (rec : string → gset string → gset string → option resolve_result)
    (names : list string) (order missing : list string)
    (resolved unresolved : gset string) : option resolve_result :=
  match names with
  | [] => Some (order, missing, resolved, unresolved)
  | name :: names' =>
      '(dep_order, dep_missing, resolved, unresolved) ←
        rec name resolved unresolved;
      resolve_names rec names' (order ++ dep_order) (missing ++ dep_missing)
        resolved unresolved
  end.

(** A call of the resolver's recursion returns, restores the on-stack set
    and only adds to the resolved set, whenever fewer than [n] registered
    names are outside both sets. *)
Definition resolve_call_ok (skills : registry) (n : nat)
    (rec : string → gset string → gset string → option resolve_result) : Prop :=
  ∀ name resolved unresolved,
    (size (PyDict.dom skills ∖ (resolved ∪ unresolved)) < n)%nat →
    ∃ order missing resolved',
      rec name resolved unresolved = Some (order, missing, resolved', unresolved) ∧
      resolved ⊆ resolved'.

(** [before order x y]: [x] occurs in [order] at a position ahead of [y]. *)
Definition before (order : list string) (x y : string) : Prop :=
  ∃ i j, order !! i = Some x ∧ order !! j = Some y ∧ (i < j)%nat.

(** [closed_under skills R]: every registered dependency the resolver
    follows from a member of [R] is in [R]. *)
Definition closed_under (skills : registry) (R : gset string) : Prop :=
  ∀ s d, s ∈ R → ordering_edge skills s d →
         is_Some (PyDict.get skills d) → d ∈ R.

(** [placed_after skills R order]: each element of [order] comes after all
    its registered dependencies, except those already in [R]. *)
Definition placed_after (skills : registry) (R : gset string)
    (order : list string) : Prop :=
  ∀ i s d, order !! i = Some s → ordering_edge skills s d →
           is_Some (PyDict.get skills d) →
           d ∈ R ∨ ∃ j, (j < i)%nat ∧ order !! j = Some d.

(** What a returning call of the resolver's recursion guarantees when it
    starts from a closed resolved set and a stack whose members all reach
    the requested name. *)
Definition resolve_call_sound (skills : registry)
    (rec : string → gset string → gset string → option resolve_result) : Prop :=
  ∀ name R U order missing R' U',
    rec name R U = Some (order, missing, R', U') →
    closed_under skills R →
    (∀ u, u ∈ U → tc (ordering_edge skills) u name) →
    U' = U ∧ R' = R ∪ list_to_set order ∧ NoDup order ∧
    (∀ x, x ∈ order → (x ∉ R) ∧ (x ∉ U) ∧ is_Some (PyDict.get skills x)) ∧
    closed_under skills R' ∧ placed_after skills R order ∧
    (is_Some (PyDict.get skills name) → name ∈ R').

(** A checkable certificate of acyclicity: along every edge the resolver
    follows, [rank] strictly decreases. *)
Definition ranked_by (rank : string → nat) (skills : registry) : bool :=
  forallb
    (fun '(k, skill) =>
       forallb
         (fun dep =>
            if dep_required dep || dep_auto_load dep
            then (rank (dep_name dep) <? rank k)%nat
            else true)
         (deps_skills (meta_dependencies skill)))
    skills.

Definition diamond_rank (name : string) : nat :=
  if decide (name = "A") then 2 else if decide (name = "D") then 0 else 1.

(** The aggregator's loop, seen over the names it actually recurses into. *)
Fixpoint collect_names (rec : string → tools_state → option tools_state)
    (names : list string) (st : tools_state) : option tools_state :=
  match names with
  | [] => Some st
  | name :: names' => st' ← rec name st; collect_names rec names' st'
  end.

(** The tools registered under a name ([[]] for an unregistered name). *)
Definition tools_of (skills : registry) (name : string) : list ToolDefinition :=
  match PyDict.get skills name with
  | Some skill => meta_tools skill
  | None => []
  end.

(** [visit_order skills R visited]: an auto-load dependency [d] of a visited
    skill [x] was memoized beforehand, or was visited ahead of [x], or is
    itself visited and reaches [x] through auto-load edges (a cycle). *)
Definition visit_order (skills : registry) (R : gset string)
    (visited : list string) : Prop :=
  ∀ i x d, visited !! i = Some x → auto_edge skills x d →
           is_Some (PyDict.get skills d) →
           d ∈ R ∨ (∃ j, (j < i)%nat ∧ visited !! j = Some d) ∨
           (d ∈ visited ∧ tc (auto_edge skills) d x).

(** What a returning call of the aggregator's recursion guarantees: the
    tools appended are those of a duplicate-free sequence [visited] of
    registered, not yet memoized skills reachable from the requested name. *)
Definition tools_call_sound (skills : registry)
    (rec : string → tools_state → option tools_state) : Prop :=
  ∀ name resolved all_tools resolved' all_tools',
    rec name (resolved, all_tools) = Some (resolved', all_tools') →
    ∃ visited,
      all_tools' = all_tools ++ (visited ≫= tools_of skills) ∧
      resolved' = resolved ∪ list_to_set visited ∧
      NoDup visited ∧
      (∀ x, x ∈ visited →
         (x ∉ resolved) ∧ is_Some (PyDict.get skills x) ∧
         rtc (auto_edge skills) name x) ∧
      (is_Some (PyDict.get skills name) → name ∈ resolved') ∧
      visit_order skills resolved visited.

(** Names of the dependencies the cycle detector recurses into: every
    declared dependency whose target is registered, whatever its flags. *)
Definition registered_deps (skills : registry) (skill : SkillMeta) : list string :=
  map dep_name
    (filter (fun dep => PyDict.mem skills (dep_name dep) = true)
       (deps_skills (meta_dependencies skill))).

(** The detector's loop, seen over the names it actually recurses into. *)
Fixpoint dfs_names (rec : string → dfs_state → option dfs_state)
    (names : list string) (st : dfs_state) : option dfs_state :=
  match names with
  | [] => Some st
  | name :: names' => st' ← rec name st; dfs_names rec names' st'
  end.

(** [declares skills s d]: the skill registered as [s] lists a dependency
    named [d], with any flags. *)
Definition declares (skills : registry) (s d : string) : Prop :=
  ∃ skill dep,
    PyDict.get skills s = Some skill ∧
    dep ∈ deps_skills (meta_dependencies skill) ∧
    dep_name dep = d.

(** A reported cycle: a repeat-free stretch of dependency edges that
    starts at some skill and is closed by an edge back to it. *)
Definition is_cycle (skills : registry) (c : list string) : Prop :=
  ∃ x rest,
    c = x :: rest ++ [x] ∧ NoDup (x :: rest) ∧ chain (any_edge skills) c.

(** The current path of the detector is a repeat-free chain of edges whose
    last element has an edge to the name about to be visited. *)
Definition path_ok (skills : registry) (path : list string) (name : string) : Prop :=
  NoDup path ∧ chain (any_edge skills) path ∧
  ∀ y, last path = Some y → any_edge skills y name.

Definition dfs_call_sound (skills : registry)
    (rec : string → list string → dfs_state → option dfs_state) : Prop :=
  ∀ name path visited cycles visited' cycles',
    rec name path (visited, cycles) = Some (visited', cycles') →
    ∃ new, cycles' = cycles ++ new ∧ visited ⊆ visited' ∧
           (path_ok skills path name → ∀ c, c ∈ new → is_cycle skills c).

(** Some reported cycle passes through both [A] and [B]. *)
Definition through (A B : string) (cycles : list (list string)) : Prop :=
  ∃ c, c ∈ cycles ∧ A ∈ c ∧ B ∈ c.

(** ** Sample registries *)

Definition sample_dep (name : string) (required auto_load : bool) : SkillDependency :=
  {| dep_name := name; dep_required := required; dep_reason := "";
     dep_auto_load := auto_load |}.

Definition sample_tool (name : string) (aliases : list string) : ToolDefinition :=
  {| tool_name := name; tool_category := "cli"; tool_description := "";
     tool_command := name; tool_parameters := []; tool_examples := [];
     tool_aliases := aliases |}.

(** The empty dictionary [{}] as a frontmatter. *)
Definition empty_frontmatter : PyDict.dict PyAny := [].

Definition sample_skill (name : string) (deps : list SkillDependency)
    (tools : list ToolDefinition) : SkillMeta :=
  {| meta_name := name; meta_description := "sample"; meta_version := "1.0.0";
     meta_path := "skills/" +:+ name; meta_tools := tools;
     meta_dependencies :=
       {| deps_skills := deps; deps_packages := []; deps_environment := [] |};
     meta_prerequisites := []; meta_performance := [];
     meta_raw_frontmatter := empty_frontmatter |}.

(** The registry a loader builds from records given in load order. *)
Definition sample_registry (records : list SkillMeta) : registry :=
  fold_left (fun skills meta => PyDict.set skills (meta_name meta) meta) records [].

(** A requires B and C; B and C each require D. *)
Definition diamond_registry : registry :=
  sample_registry
    [sample_skill "A" [sample_dep "B" true false; sample_dep "C" true false]
       [sample_tool "a" []];
     sample_skill "B" [sample_dep "D" true false] [sample_tool "b" []];
     sample_skill "C" [sample_dep "D" true false] [sample_tool "c" []];
     sample_skill "D" [] [sample_tool "d" []]].

(** A and B auto-load each other (optional edges). *)
Definition cycle_registry : registry :=
  sample_registry
    [sample_skill "A" [sample_dep "B" false true] [sample_tool "a" ["run"]];
     sample_skill "B" [sample_dep "A" false true] [sample_tool "b" ["run"]]].

(** A auto-loads B, B auto-loads C. *)
Definition chain_registry : registry :=
  sample_registry
    [sample_skill "A" [sample_dep "B" false true] [sample_tool "a" []];
     sample_skill "B" [sample_dep "C" true true] [sample_tool "b" []];
     sample_skill "C" [] [sample_tool "c" []]].

(** A requires the unregistered C. *)
Definition dangling_registry : registry :=
  sample_registry [sample_skill "A" [sample_dep "C" true false] []].

(** A requires itself. *)
Definition self_registry : registry :=
  sample_registry [sample_skill "A" [sample_dep "A" true false] []].

(** The state of a traversal of the cycle detector started at [A], seen
    from a call whose current path is [path]: the path is memoized;
    every memoized skill off the path has all its registered dependencies
    memoized; and for every memoized skill off the path that depends on
    [A], a cycle containing [A] has been recorded. *)
Definition dfs_progress (skills : registry) (A : string) (path : list string)
    (st : dfs_state) : Prop :=
  (∀ x, x ∈ path → x ∈ st.1) ∧
  (∀ x w, x ∈ st.1 → x ∉ path → any_edge skills x w → w ∈ st.1) ∧
  (∀ b, b ∈ st.1 → b ∉ path → any_edge skills b A →
        ∃ c, c ∈ st.2 ∧ A ∈ c).

(** What a returning call of the detector's recursion adds to that. *)
Definition dfs_call_complete (skills : registry) (A : string)
    (path : list string) (rec : string → dfs_state → option dfs_state) : Prop :=
  ∀ name st st',
    rec name st = Some st' →
    dfs_progress skills A path st →
    dfs_progress skills A path st' ∧ name ∈ st'.1 ∧ st.1 ⊆ st'.1 ∧
    (name = A → ∃ c, c ∈ st'.2 ∧ A ∈ c) ∧
    ((∃ c, c ∈ st.2 ∧ A ∈ c) → ∃ c, c ∈ st'.2 ∧ A ∈ c).

(** [truthful skills roots U placed msg]: the message [msg] of the resolver
    is either a circular-dependency message for a name reachable from one
    of [roots] that is on the stack [U] or is placed and lies on a cycle,
    or a not-found message for an unregistered name reachable from one of
    [roots]. *)
Definition truthful (skills : registry) (roots : list string)
    (U : gset string) (placed : list string) (msg : string) : Prop :=
  (∃ e, msg = "Circular dependency detected: " +:+ e ∧
        (∃ r, r ∈ roots ∧ rtc (ordering_edge skills) r e) ∧
        (e ∈ U ∨ (e ∈ placed ∧ tc (ordering_edge skills) e e))) ∨
  (∃ e, msg = "Skill not found: " +:+ e ∧
        PyDict.get skills e = None ∧
        ∃ r, r ∈ roots ∧ rtc (ordering_edge skills) r e).

(** [placed_or_reported skills R placed missing]: a registered dependency
    of a placed skill is already in [R], or placed ahead of it, or the
    subject of a circular-dependency message. *)
Definition placed_or_reported (skills : registry) (R : gset string)
    (placed missing : list string) : Prop :=
  ∀ i s d, placed !! i = Some s → ordering_edge skills s d →
           is_Some (PyDict.get skills d) →
           d ∈ R ∨ (∃ j, (j < i)%nat ∧ placed !! j = Some d) ∨
           "Circular dependency detected: " +:+ d ∈ missing.

(** What a returning call of the resolver's recursion guarantees on any
    registry, cyclic or not, when every on-stack name reaches the
    requested name and both sets hold registered names only. *)
Definition resolve_call_general (skills : registry)
    (rec : string → gset string → gset string → option resolve_result) : Prop :=
  ∀ name R U order missing R' U',
    rec name R U = Some (order, missing, R', U') →
    (∀ u, u ∈ U → tc (ordering_edge skills) u name) →
    (∀ x, x ∈ R ∪ U → is_Some (PyDict.get skills x)) →
    U' = U ∧ R' = R ∪ list_to_set order ∧ NoDup order ∧
    (∀ x, x ∈ order →
       (x ∉ R) ∧ (x ∉ U) ∧ is_Some (PyDict.get skills x) ∧
       rtc (ordering_edge skills) name x) ∧
    (is_Some (PyDict.get skills name) → name ∉ R → name ∉ U →
       last order = Some name) ∧
    (is_Some (PyDict.get skills name) →
       name ∈ R' ∨ "Circular dependency detected: " +:+ name ∈ missing) ∧
    (PyDict.get skills name = None → "Skill not found: " +:+ name ∈ missing) ∧
    (∀ msg, msg ∈ missing → truthful skills [name] U order msg) ∧
    (∀ s d, s ∈ order → ordering_edge skills s d → PyDict.get skills d = None →
       "Skill not found: " +:+ d ∈ missing) ∧
    placed_or_reported skills R order missing.




(** ** Facts about dictionaries and loops *)

Module PyDictFacts.
Import PyDict.

Section facts.
Context {V : Type}.
Implicit Types (d : dict V) (k : string) (v : V).

Lemma get_set_eq d k v : get (set d k v) k = Some v.
Proof.
  induction d as [|[k' v'] d IH]; simpl.
  - by rewrite decide_True.
  - destruct (decide (k' = k)) as [->|Hne]; simpl.
    + by rewrite decide_True.
    + by rewrite decide_False.
Qed.

Lemma get_set_ne d k k' v : k ≠ k' → get (set d k v) k' = get d k'.
Proof.
  intros Hne. induction d as [|[k0 v0] d IH]; simpl.
  - by rewrite decide_False.
  - destruct (decide (k0 = k)) as [->|Hne0]; simpl.
    + by rewrite !decide_False.
    + by rewrite IH.
Qed.

Lemma get_set d k k' v :
  get (set d k v) k' = if decide (k = k') then Some v else get d k'.
Proof.
  destruct (decide (k = k')) as [->|Hne].
  - apply get_set_eq.
  - by apply get_set_ne.
Qed.

Lemma elem_of_keys d k : k ∈ keys d ↔ is_Some (get d k).
Proof.
  unfold keys. induction d as [|[k' v'] d IH]; simpl.
  - split; [by intros ?%elem_of_nil | by intros [? ?]].
  - rewrite elem_of_cons. destruct (decide (k' = k)) as [->|Hne].
    + split; eauto.
    + rewrite <- IH. split; [intros [?|?]; congruence | by right].
Qed.

Lemma elem_of_dom d k : k ∈ dom d ↔ is_Some (get d k).
Proof. unfold dom. by rewrite elem_of_list_to_set, elem_of_keys. Qed.

Lemma mem_true d k : mem d k = true ↔ is_Some (get d k).
Proof.
  unfold mem. destruct (get d k); split; eauto; try done.
Qed.

Lemma mem_false d k : mem d k = false ↔ get d k = None.
Proof. unfold mem. by destruct (get d k). Qed.

Lemma size_dom_le d : (size (dom d) ≤ length d)%nat.
Proof.
  unfold dom, keys. induction d as [|[k' v'] d IH].
  - simpl length. rewrite fmap_nil, list_to_set_nil, size_empty. lia.
  - rewrite fmap_cons, list_to_set_cons. simpl length.
    etrans; [apply Nat.eq_le_incl, size_union_alt|].
    rewrite size_singleton.
    assert (size (list_to_set (map fst d) ∖ {[k']} : gset string)
            ≤ size (list_to_set (map fst d) : gset string))%nat.
    { apply subseteq_size. set_solver. }
    change (map fst d) with (fst <$> d) in *. simpl in *. lia.
Qed.

Lemma get_Some_elem_of d k v : get d k = Some v → (k, v) ∈ d.
Proof.
  induction d as [|[k' v'] d IH]; simpl; [done|].
  destruct (decide (k' = k)) as [->|Hne].
  - intros [= ->]. apply elem_of_cons; by left.
  - intros H. apply elem_of_cons; right; by apply IH.
Qed.
End facts.
End PyDictFacts.

Section loops.
Context {A B : Type}.

(** A loop whose body only extends the accumulator list. *)
Lemma fold_left_extend (step : list B → A → list B) (f : A → list B) :
  (∀ acc x, step acc x = acc ++ f x) →
  ∀ l init, fold_left step l init = init ++ (l ≫= f).
Proof.
  intros Hstep l. induction l as [|x l IH]; intros init; simpl.
  - by rewrite app_nil_r.
  - by rewrite IH, Hstep, <- app_assoc.
Qed.
End loops.

(** ** Validation: the environment check *)

Section validation.
Context (environ : gmap string string) (skills : registry).

Lemma validate_skill_found skill_name skill :
  PyDict.get skills skill_name = Some skill →
  validate_skill environ skill_name skills =
    (deps_skills (meta_dependencies skill) ≫= dep_errors skills skill_name) ++
    (deps_environment (meta_dependencies skill) ≫= env_errors environ) ++
    (meta_tools skill ≫= tool_errors skill_name).
Proof.
  intros Hget. unfold validate_skill. rewrite Hget.
  rewrite (fold_left_extend _ (dep_errors skills skill_name)).
  2:{ intros acc dep. unfold dep_errors.
      destruct (negb _); by rewrite ?app_nil_r. }
  rewrite (fold_left_extend _ (env_errors environ)).
  2:{ intros acc env. unfold env_errors.
      destruct (env_required env); [destruct (negb _)|]; by rewrite ?app_nil_r. }
  rewrite (fold_left_extend _ (tool_errors skill_name)).
  2:{ intros acc tool. unfold tool_errors.
      repeat case_decide; simpl; by rewrite <- ?app_assoc, ?app_nil_r. }
  simpl. by rewrite <- app_assoc.
Qed.

Lemma truthy_false (v : option string) :
  truthy v = false ↔ v = None ∨ v = Some "".
Proof.
  unfold truthy. destruct v as [s|]; [|naive_solver].
  case_decide; naive_solver.
Qed.

Lemma env_message_elem_of (name : string) (envs : list EnvironmentRequirement) :
  "Missing required environment variable: " +:+ name ∈ envs ≫= env_errors environ ↔
  ∃ env, env ∈ envs ∧ env_name env = name ∧ env_required env = true ∧
         truthy (environ !! name) = false.
Proof.
  rewrite list_elem_of_bind. split.
  - intros (env & Hin & Henv). exists env. unfold env_errors in Hin.
    destruct (env_required env) eqn:Hreq; [|by apply elem_of_nil in Hin].
    destruct (truthy (environ !! env_name env)) eqn:Htr; simpl in Hin;
      [by apply elem_of_nil in Hin|].
    apply list_elem_of_singleton in Hin. simpl in Hin.
    simplify_eq. done.
  - intros (env & Hin & <- & Hreq & Htr). exists env. split; [|done].
    unfold env_errors. rewrite Hreq, Htr. simpl. apply list_elem_of_singleton.
    done.
Qed.

Lemma env_message_not_dep_error (name skill_name : string) deps :
  "Missing required environment variable: " +:+ name ∉ deps ≫= dep_errors skills skill_name.
Proof.
  rewrite list_elem_of_bind. intros (dep & Hin & _). unfold dep_errors in Hin.
  destruct (negb _); [|by apply elem_of_nil in Hin].
  apply list_elem_of_singleton in Hin. simpl in Hin. discriminate Hin.
Qed.

Lemma env_message_not_tool_error (name skill_name : string) tools :
  "Missing required environment variable: " +:+ name ∉ tools ≫= tool_errors skill_name.
Proof.
  rewrite list_elem_of_bind. intros (tool & Hin & _). unfold tool_errors in Hin.
  apply elem_of_app in Hin as [Hin|Hin]; case_decide;
    try (by apply elem_of_nil in Hin);
    apply list_elem_of_singleton in Hin; simpl in Hin; discriminate Hin.
Qed.
End validation.

(** C3 (as amended): for a registered skill and one of its environment
    requirements marked required, [validate_skill] reports "Missing
    required environment variable: NAME" exactly when [os.environ.get]
    of the name is falsy, that is, when the variable is unset or set to
    the empty string. *)
Theorem validate_skill_required_env
    (environ : gmap string string) (skills : registry)
    (skill_name : string) (skill : SkillMeta) (env : EnvironmentRequirement) :
  PyDict.get skills skill_name = Some skill →
  env ∈ deps_environment (meta_dependencies skill) →
  env_required env = true →
  "Missing required environment variable: " +:+ env_name env
    ∈ validate_skill environ skill_name skills
  ↔ (environ !! env_name env = None ∨ environ !! env_name env = Some "").
Proof.
  intros Hget Hin Hreq. rewrite (validate_skill_found _ _ _ _ Hget).
  rewrite !elem_of_app, env_message_elem_of, <- truthy_false. split.
  - intros [Hdep|[(env' & _ & _ & _ & Htr)|Htool]]; [|done|].
    + by apply env_message_not_dep_error in Hdep.
    + by apply env_message_not_tool_error in Htool.
  - intros Htr. right; left. by exists env.
Qed.

Lemma validate_skill_required_env_witness :
  let env := {| env_name := "API_KEY"; env_required := true;
                env_description := "service key" |} in
  let skill := {| meta_name := "fetch"; meta_description := "fetch pages";
                  meta_version := "1.0.0"; meta_path := "skills/fetch";
                  meta_tools := [];
                  meta_dependencies :=
                    {| deps_skills := []; deps_packages := [];
                       deps_environment := [env] |};
                  meta_prerequisites := []; meta_performance := [];
                  meta_raw_frontmatter := empty_frontmatter |} in
  "Missing required environment variable: API_KEY"
    ∈ validate_skill ∅ "fetch" [("fetch", skill)]
  ↔ ((∅ : gmap string string) !! "API_KEY" = None
     ∨ (∅ : gmap string string) !! "API_KEY" = Some "").
Proof.
  intros env skill.
  apply (validate_skill_required_env ∅ [("fetch", skill)] "fetch" skill env).
  - reflexivity.
  - apply list_elem_of_singleton. reflexivity.
  - reflexivity.
Defined.

(** C3 fails as stated: a required variable that is present in the
    environment with the empty string as its value is still reported. *)
Lemma validate_skill_env_empty_value_reported :
  let env := {| env_name := "API_KEY"; env_required := true;
                env_description := "service key" |} in
  let skill := {| meta_name := "fetch"; meta_description := "fetch pages";
                  meta_version := "1.0.0"; meta_path := "skills/fetch";
                  meta_tools := [];
                  meta_dependencies :=
                    {| deps_skills := []; deps_packages := [];
                       deps_environment := [env] |};
                  meta_prerequisites := []; meta_performance := [];
                  meta_raw_frontmatter := empty_frontmatter |} in
  let environ : gmap string string := {[ "API_KEY" := "" ]} in
  ¬ ("Missing required environment variable: API_KEY"
       ∈ validate_skill environ "fetch" [("fetch", skill)]
     ↔ environ !! "API_KEY" = None).
Proof.
  intros env skill environ [Habs _].
  assert (environ !! "API_KEY" = None) as Hnone; [|done].
  apply Habs. vm_compute. apply list_elem_of_singleton. reflexivity.
Qed.

(** ** Loading: which sources reach the registry *)

Section loading.
Import PyDictFacts.

Lemma truthy_true (v : option string) :
  truthy v = true ↔ ∃ s, v = Some s ∧ s ≠ "".
Proof.
  unfold truthy. destruct v as [s|]; [|naive_solver].
  case_decide; naive_solver.
Qed.

















End loading.




(** ** Termination of the tool aggregator *)

Section measure.
Context (skills : registry).

(** Registered names not yet in [seen]: the recursion measure shared by
    the three traversals. *)
Lemma size_dom_difference_le (seen : gset string) :
  (size (PyDict.dom skills ∖ seen) ≤ length skills)%nat.
Proof.
  etrans; [|apply PyDictFacts.size_dom_le].
  apply subseteq_size. set_solver.
Qed.

Lemma size_dom_difference_mono (seen seen' : gset string) :
  seen ⊆ seen' →
  (size (PyDict.dom skills ∖ seen') ≤ size (PyDict.dom skills ∖ seen))%nat.
Proof. intros Hsub. apply subseteq_size. set_solver. Qed.

Lemma size_dom_difference_enter (seen : gset string) name skill :
  PyDict.get skills name = Some skill → name ∉ seen →
  (size (PyDict.dom skills ∖ (seen ∪ {[name]}))
   < size (PyDict.dom skills ∖ seen))%nat.
Proof.
  intros Hget Hnot. apply subset_size.
  assert (name ∈ PyDict.dom skills) by (apply PyDictFacts.elem_of_dom; eauto).
  set_solver.
Qed.
End measure.

Section collect_tools_termination.
Context (skills : registry).

Lemma collect_tools_deps_total n rec deps :
  tools_call_ok skills n rec →
  tools_call_ok skills n (fun _ => collect_tools_deps rec deps).
Proof.
  intros Hrec _. induction deps as [|dep deps IH]; intros st Hsz; simpl.
  - by exists st.
  - destruct (dep_auto_load dep); [|by apply IH].
    destruct (Hrec (dep_name dep) st Hsz) as (st1 & -> & Hsub1). simpl.
    destruct (IH st1) as (st2 & -> & Hsub2).
    + pose proof (size_dom_difference_mono skills _ _ Hsub1). lia.
    + exists st2. split; [done|]. set_solver.
Qed.

Lemma collect_tools_total fuel :
  tools_call_ok skills fuel (collect_tools fuel skills).
Proof.
  induction fuel as [|fuel IH]; intros name [resolved all_tools] Hsz;
    [simpl in Hsz; lia|].
  simpl in *. case_decide as Hres; [by eexists|].
  destruct (PyDict.get skills name) as [skill|] eqn:Hget; [|by eexists].
  pose proof (size_dom_difference_enter skills resolved name skill Hget Hres).
  destruct (collect_tools_deps_total fuel _
              (deps_skills (meta_dependencies skill)) IH name
              (resolved ∪ {[name]}, all_tools))
    as ([resolved' all_tools'] & -> & Hsub); simpl in *; [lia|].
  eexists. split; [done|]. simpl. set_solver.
Qed.

Lemma get_tools_for_skill_total skill_name :
  ∃ resolved tools,
    collect_tools (S (length skills)) skills skill_name (∅, []) =
      Some (resolved, tools) ∧
    get_tools_for_skill skill_name skills = Some tools.
Proof.
  unfold get_tools_for_skill.
  destruct (collect_tools_total (S (length skills)) skill_name (∅, []))
    as ([resolved tools] & Hrun & _).
  - simpl. pose proof (size_dom_difference_le skills ∅). lia.
  - exists resolved, tools. by rewrite Hrun.
Qed.

(** More fuel never changes a result. *)
Lemma collect_tools_deps_fuel_mono
    (rec rec' : string → tools_state → option tools_state) deps :
  (∀ name st st', rec name st = Some st' → rec' name st = Some st') →
  ∀ st st', collect_tools_deps rec deps st = Some st' →
            collect_tools_deps rec' deps st = Some st'.
Proof.
  intros Hrec. induction deps as [|dep deps IH]; intros st st'; simpl; [done|].
  destruct (dep_auto_load dep); [|by apply IH].
  destruct (rec (dep_name dep) st) as [st1|] eqn:Hcall; [|done]. simpl.
  rewrite (Hrec _ _ _ Hcall). simpl. apply IH.
Qed.

Lemma collect_tools_fuel_mono fuel fuel' name st st' :
  (fuel ≤ fuel')%nat →
  collect_tools fuel skills name st = Some st' →
  collect_tools fuel' skills name st = Some st'.
Proof.
  revert fuel' name st st'.
  induction fuel as [|fuel IH]; intros fuel' name [resolved all_tools] st' Hle;
    [done|].
  destruct fuel' as [|fuel']; [lia|]. simpl.
  case_decide; [done|].
  destruct (PyDict.get skills name) as [skill|]; [|done].
  destruct (collect_tools_deps (collect_tools fuel skills) _ _)
    as [[resolved1 tools1]|] eqn:Hdeps; [|done].
  erewrite collect_tools_deps_fuel_mono; [done| |exact Hdeps].
  intros. apply IH; [lia|done].
Qed.
End collect_tools_termination.

(** ** The tool index *)

Section manifest.
Import PyDictFacts.

Lemma alias_loop_get (aliases : list string) (td : ToolDefinition)
    (tool_index : PyDict.dict ToolDefinition) (key : string) :
  PyDict.get
    (fold_left (fun tool_index alias => PyDict.set tool_index alias td)
       aliases tool_index) key =
  if decide (key ∈ aliases) then Some td else PyDict.get tool_index key.
Proof.
  revert tool_index.
  induction aliases as [|a aliases IH]; intros tool_index; cbn [fold_left].
  - rewrite decide_False; [done|]. by intros ?%elem_of_nil.
  - rewrite IH, get_set.
    destruct (decide (key ∈ aliases)) as [Hin|Hnin].
    + rewrite decide_True; [done|]. apply elem_of_cons. by right.
    + destruct (decide (a = key)) as [->|Hne].
      * rewrite decide_True; [done|]. apply elem_of_cons. by left.
      * rewrite decide_False; [done|].
        intros [?|?]%elem_of_cons; congruence.
Qed.

Lemma manifest_add_get (manifest : Manifest) (tool : ToolDefinition) (key : string) :
  PyDict.get (manifest_tool_index (manifest_add manifest tool)) key =
  if decide (key ∈ tool_keys tool) then Some (tool_def tool)
  else PyDict.get (manifest_tool_index manifest) key.
Proof.
  unfold manifest_add, tool_keys. cbn [manifest_tool_index].
  rewrite alias_loop_get, get_set.
  destruct (decide (key ∈ tool_aliases tool)) as [Hin|Hnin].
  - rewrite decide_True; [done|]. apply elem_of_cons. by right.
  - destruct (decide (tool_name tool = key)) as [<-|Hne].
    + rewrite decide_True; [done|]. apply elem_of_cons. by left.
    + rewrite decide_False; [done|].
      intros [?|?]%elem_of_cons; congruence.
Qed.

Lemma manifest_loop_snoc tools tool manifest :
  fold_left manifest_add (tools ++ [tool]) manifest =
  manifest_add (fold_left manifest_add tools manifest) tool.
Proof. by rewrite fold_left_app. Qed.

Lemma manifest_loop_tools tools manifest :
  manifest_tools (fold_left manifest_add tools manifest) =
  manifest_tools manifest ++ map tool_def tools.
Proof.
  revert manifest. induction tools as [|tool tools IH]; intros manifest; simpl.
  - by rewrite app_nil_r.
  - rewrite IH. simpl. by rewrite <- app_assoc.
Qed.

Lemma manifest_loop_keys tools manifest key :
  is_Some (PyDict.get (manifest_tool_index (fold_left manifest_add tools manifest)) key)
  ↔ is_Some (PyDict.get (manifest_tool_index manifest) key) ∨
    ∃ tool, tool ∈ tools ∧ key ∈ tool_keys tool.
Proof.
  induction tools as [|tool tools IH] using rev_ind.
  - simpl. split; [by left|]. intros [?|(tool & Hin & _)]; [done|].
    by apply elem_of_nil in Hin.
  - rewrite manifest_loop_snoc, manifest_add_get.
    destruct (decide (key ∈ tool_keys tool)) as [Hkey|Hkey].
    + split; [|done]. intros _. right. exists tool. split; [|done].
      apply elem_of_app. right. by apply list_elem_of_singleton.
    + rewrite IH. split.
      * intros [?|(t & Hin & Hk)]; [by left|]. right. exists t.
        split; [|done]. apply elem_of_app. by left.
      * intros [?|(t & Hin & Hk)]; [by left|]. right. exists t.
        split; [|done].
        apply elem_of_app in Hin as [?|Heq%list_elem_of_singleton]; [done|].
        by subst t.
Qed.

Lemma manifest_loop_last before tool after manifest key :
  key ∈ tool_keys tool →
  (∀ t, t ∈ after → key ∉ tool_keys t) →
  PyDict.get
    (manifest_tool_index
       (fold_left manifest_add (before ++ tool :: after) manifest)) key =
  Some (tool_def tool).
Proof.
  intros Hkey. induction after as [|t after IH] using rev_ind; intros Hafter.
  - rewrite manifest_loop_snoc, manifest_add_get. by rewrite decide_True.
  - rewrite app_comm_cons, app_assoc, manifest_loop_snoc, manifest_add_get.
    rewrite decide_False.
    + apply IH. intros t' Hin. apply Hafter, elem_of_app. by left.
    + apply Hafter, elem_of_app. right. by apply list_elem_of_singleton.
Qed.
(** The dictionary built for a tool has the fields of the tool, each with
    the tool's own value. *)
Lemma tool_def_id (tool : ToolDefinition) : tool_def tool = tool.
Proof.
  destruct tool as [n c d cmd params ex al]. unfold tool_def. simpl. f_equal.
  induction params as [|[? ? ? ? ?] params IH]; simpl; [done|]. by rewrite IH.
Qed.

End manifest.

(** C8: for every skill name the manifest is produced; it lists the
    aggregated tools, each with its own fields; its index has a key exactly
    for the name and every alias of every aggregated tool, and a key shared
    by several tools (as a name or as an alias) is mapped to the tool
    traversed last among them. *)
Theorem tool_index_last_write_wins (skill_name : string) (skills : registry) :
  ∃ tools manifest,
    get_tools_for_skill skill_name skills = Some tools ∧
    generate_tool_manifest skill_name skills = Some manifest ∧
    manifest_tools manifest = tools ∧
    (∀ key, is_Some (PyDict.get (manifest_tool_index manifest) key) ↔
            ∃ tool, tool ∈ tools ∧ key ∈ tool_keys tool) ∧
    (∀ before tool after key,
       tools = before ++ tool :: after →
       key ∈ tool_keys tool →
       (∀ t, t ∈ after → key ∉ tool_keys t) →
       PyDict.get (manifest_tool_index manifest) key = Some tool).
Proof.
  destruct (get_tools_for_skill_total skills skill_name)
    as (resolved & tools & _ & Htools).
  exists tools. eexists. split; [done|].
  unfold generate_tool_manifest. rewrite Htools. simpl. split; [done|].
  split; [|split].
  - rewrite manifest_loop_tools. simpl. rewrite <- (map_id tools) at 2.
    apply map_ext. intros tool. apply tool_def_id.
  - intros key. rewrite manifest_loop_keys. simpl. split; [|by right].
    by intros [[? [=]]|?].
  - intros before tool after key -> Hkey Hafter.
    rewrite <- (tool_def_id tool) at 2. by apply manifest_loop_last.
Qed.

Lemma tool_index_last_write_wins_on_cycle :
  ∃ tools manifest,
    get_tools_for_skill "A" cycle_registry = Some tools ∧
    generate_tool_manifest "A" cycle_registry = Some manifest ∧
    tools = [sample_tool "b" ["run"]; sample_tool "a" ["run"]] ∧
    manifest_tools manifest = tools ∧
    PyDict.get (manifest_tool_index manifest) "run" =
      Some (sample_tool "a" ["run"]).
Proof.
  destruct (tool_index_last_write_wins "A" cycle_registry)
    as (tools & manifest & Htools & Hmanifest & Hlisted & _ & Hlast).
  exists tools, manifest.
  assert (tools = [sample_tool "b" ["run"]; sample_tool "a" ["run"]]) as Heq.
  { vm_compute in Htools. by injection Htools as <-. }
  split_and!; try done.
  apply (Hlast [sample_tool "b" ["run"]] (sample_tool "a" ["run"]) [] "run").
  - exact Heq.
  - vm_compute. apply elem_of_cons. right. apply elem_of_cons. by left.
  - intros t Hin. by apply elem_of_nil in Hin.
Defined.

(** ** The resolver: unfolding, termination, fuel *)

Section resolve_basics.
Context (skills : registry).

Lemma resolve_deps_names rec deps order missing resolved unresolved :
  resolve_deps rec deps order missing resolved unresolved =
  resolve_names rec
    (map dep_name
       (filter (fun dep => dep_required dep || dep_auto_load dep = true) deps))
    order missing resolved unresolved.
Proof.
  revert order missing resolved unresolved.
  induction deps as [|dep deps IH]; intros order missing resolved unresolved;
    [done|].
  cbn [resolve_deps].
  destruct (dep_required dep || dep_auto_load dep) eqn:Hact.
  - rewrite filter_cons_True by done. cbn [map resolve_names].
    destruct (rec (dep_name dep) resolved unresolved) as [[[[o m] r] u]|];
      [|done].
    simpl. apply IH.
  - rewrite filter_cons_False by (by rewrite Hact). apply IH.
Qed.

Lemma resolve_circular fuel name resolved unresolved :
  name ∈ unresolved →
  resolve_skill_dependencies_fuel (S fuel) skills name resolved unresolved =
  Some ([], ["Circular dependency detected: " +:+ name], resolved, unresolved).
Proof. intros Hin. cbn [resolve_skill_dependencies_fuel]. by rewrite decide_True. Qed.

Lemma resolve_already fuel name resolved unresolved :
  name ∉ unresolved → name ∈ resolved →
  resolve_skill_dependencies_fuel (S fuel) skills name resolved unresolved =
  Some ([], [], resolved, unresolved).
Proof.
  intros Hnin Hin. cbn [resolve_skill_dependencies_fuel].
  by rewrite decide_False, decide_True.
Qed.

Lemma resolve_not_found fuel name resolved unresolved :
  name ∉ unresolved → name ∉ resolved → PyDict.get skills name = None →
  resolve_skill_dependencies_fuel (S fuel) skills name resolved unresolved =
  Some ([], ["Skill not found: " +:+ name], resolved, unresolved).
Proof.
  intros Hu Hr Hget. cbn [resolve_skill_dependencies_fuel].
  by rewrite !decide_False, Hget.
Qed.

Lemma resolve_enter fuel name resolved unresolved skill :
  name ∉ unresolved → name ∉ resolved → PyDict.get skills name = Some skill →
  resolve_skill_dependencies_fuel (S fuel) skills name resolved unresolved =
  '(order, missing, resolved, unresolved) ←
    resolve_names (resolve_skill_dependencies_fuel fuel skills)
      (ordering_deps skill) [] [] resolved (unresolved ∪ {[name]});
  Some (order ++ [name], missing, resolved ∪ {[name]}, unresolved ∖ {[name]}).
Proof.
  intros Hu Hr Hget. cbn [resolve_skill_dependencies_fuel].
  by rewrite !decide_False, Hget, resolve_deps_names.
Qed.

Lemma resolve_names_total n rec names :
  resolve_call_ok skills n rec →
  ∀ order missing resolved unresolved,
    (size (PyDict.dom skills ∖ (resolved ∪ unresolved)) < n)%nat →
    ∃ order' missing' resolved',
      resolve_names rec names order missing resolved unresolved =
        Some (order', missing', resolved', unresolved) ∧
      resolved ⊆ resolved'.
Proof.
  intros Hrec. induction names as [|name names IH];
    intros order missing resolved unresolved Hsz; cbn [resolve_names].
  - by exists order, missing, resolved.
  - destruct (Hrec name resolved unresolved Hsz) as (o & m & r & -> & Hsub).
    simpl.
    destruct (IH (order ++ o) (missing ++ m) r unresolved)
      as (o' & m' & r' & -> & Hsub').
    + assert (resolved ∪ unresolved ⊆ r ∪ unresolved) as Hmono by set_solver.
      pose proof (size_dom_difference_mono skills _ _ Hmono). lia.
    + exists o', m', r'. split; [done|]. set_solver.
Qed.

Lemma resolve_total fuel :
  resolve_call_ok skills fuel (resolve_skill_dependencies_fuel fuel skills).
Proof.
  induction fuel as [|fuel IH]; intros name resolved unresolved Hsz; [lia|].
  destruct (decide (name ∈ unresolved)) as [Hu|Hu].
  { rewrite resolve_circular by done. by eexists _, _, _. }
  destruct (decide (name ∈ resolved)) as [Hr|Hr].
  { rewrite resolve_already by done. by eexists _, _, _. }
  destruct (PyDict.get skills name) as [skill|] eqn:Hget.
  2:{ rewrite resolve_not_found by done. by eexists _, _, _. }
  rewrite (resolve_enter _ _ _ _ skill) by done.
  destruct (resolve_names_total fuel _ (ordering_deps skill) IH [] []
              resolved (unresolved ∪ {[name]}))
    as (o & m & r & -> & Hsub).
  - assert (name ∉ resolved ∪ unresolved) as Hnot by set_solver.
    pose proof (size_dom_difference_enter skills _ name skill Hget Hnot) as Hlt.
    replace (resolved ∪ (unresolved ∪ {[name]}))
      with (resolved ∪ unresolved ∪ {[name]}) by set_solver.
    lia.
  - simpl. exists (o ++ [name]), m, (r ∪ {[name]}). split; [|set_solver].
    do 2 f_equal. set_solver.
Qed.

Lemma resolve_names_fuel_mono
    (rec rec' : string → gset string → gset string → option resolve_result) names :
  (∀ name r u res, rec name r u = Some res → rec' name r u = Some res) →
  ∀ order missing resolved unresolved res,
    resolve_names rec names order missing resolved unresolved = Some res →
    resolve_names rec' names order missing resolved unresolved = Some res.
Proof.
  intros Hrec. induction names as [|name names IH];
    intros order missing resolved unresolved res; cbn [resolve_names]; [done|].
  destruct (rec name resolved unresolved) as [[[[o m] r] u]|] eqn:Hcall; [|done].
  rewrite (Hrec _ _ _ _ Hcall). simpl. apply IH.
Qed.

Lemma resolve_fuel_mono fuel fuel' name resolved unresolved res :
  (fuel ≤ fuel')%nat →
  resolve_skill_dependencies_fuel fuel skills name resolved unresolved = Some res →
  resolve_skill_dependencies_fuel fuel' skills name resolved unresolved = Some res.
Proof.
  revert fuel' name resolved unresolved res.
  induction fuel as [|fuel IH]; intros fuel' name resolved unresolved res Hle;
    [done|].
  destruct fuel' as [|fuel']; [lia|].
  destruct (decide (name ∈ unresolved)) as [Hu|Hu].
  { by rewrite !resolve_circular. }
  destruct (decide (name ∈ resolved)) as [Hr|Hr].
  { by rewrite !resolve_already. }
  destruct (PyDict.get skills name) as [skill|] eqn:Hget.
  2:{ by rewrite !resolve_not_found. }
  rewrite !(resolve_enter _ _ _ _ skill) by done.
  destruct (resolve_names (resolve_skill_dependencies_fuel fuel skills) _ _ _ _ _)
    as [[[[o m] r] u]|] eqn:Hloop; [|done].
  erewrite resolve_names_fuel_mono; [done| |exact Hloop].
  intros. apply IH; [lia|done].
Qed.

(** Two budgets that both suffice give the same result. *)
Lemma resolve_fuel_agree fuel fuel' name resolved unresolved res res' :
  resolve_skill_dependencies_fuel fuel skills name resolved unresolved = Some res →
  resolve_skill_dependencies_fuel fuel' skills name resolved unresolved = Some res' →
  res = res'.
Proof.
  intros H H'. destruct (decide (fuel ≤ fuel')%nat) as [Hle|Hgt].
  - apply (resolve_fuel_mono _ _ _ _ _ _ Hle) in H. congruence.
  - assert (fuel' ≤ fuel)%nat as Hle by lia.
    apply (resolve_fuel_mono _ _ _ _ _ _ Hle) in H'. congruence.
Qed.

Lemma resolve_skill_dependencies_total name :
  ∃ order missing resolved,
    resolve_skill_dependencies_fuel (S (length skills)) skills name ∅ ∅ =
      Some (order, missing, resolved, ∅) ∧
    resolve_skill_dependencies name skills = Some (order, missing).
Proof.
  destruct (resolve_total (S (length skills)) name ∅ ∅)
    as (o & m & r & Hrun & _).
  - pose proof (size_dom_difference_le skills (∅ ∪ ∅)). lia.
  - exists o, m, r. split; [done|].
    unfold resolve_skill_dependencies. by rewrite Hrun.
Qed.

(** Any budget under which the traversal returns decides the public call. *)
Lemma resolve_skill_dependencies_by_fuel fuel name order missing resolved unresolved :
  resolve_skill_dependencies_fuel fuel skills name ∅ ∅ =
    Some (order, missing, resolved, unresolved) →
  resolve_skill_dependencies name skills = Some (order, missing).
Proof.
  intros Hrun.
  destruct (resolve_skill_dependencies_total name) as (o & m & r & Hrun' & ->).
  pose proof (resolve_fuel_agree _ _ _ _ _ _ _ Hrun Hrun'). by simplify_eq.
Qed.
End resolve_basics.

(** C4: when the only dependency the resolver follows from [A] names a
    skill [C] that is not registered, resolving [A] still places [A]:
    the order is [[A]] and the missing list is the single message
    "Skill not found: C". *)
Theorem resolve_dangling_reference
    (skills : registry) (A C : string) (skill : SkillMeta) :
  PyDict.get skills A = Some skill →
  ordering_deps skill = [C] →
  PyDict.get skills C = None →
  resolve_skill_dependencies A skills = Some ([A], ["Skill not found: " +:+ C]).
Proof.
  intros HA Hdeps HC.
  assert (C ≠ A) as Hne by (intros ->; congruence).
  eapply (resolve_skill_dependencies_by_fuel skills 2 A).
  rewrite (resolve_enter _ _ _ _ _ skill) by (done || set_solver).
  rewrite Hdeps. cbn [resolve_names].
  rewrite resolve_not_found; [|set_solver..|done].
  simpl. reflexivity.
Qed.

Lemma resolve_dangling_reference_witness :
  resolve_skill_dependencies "A" dangling_registry =
    Some (["A"], ["Skill not found: C"]).
Proof.
  apply (resolve_dangling_reference dangling_registry "A" "C"
           (sample_skill "A" [sample_dep "C" true false] []));
    reflexivity.
Defined.

Section resolve_cycle_message.
Context (skills : registry).

Lemma resolve_names_reports_cycle rec names :
  (∀ name r u res, rec name r u = Some res →
     ∃ o m r', res = (o, m, r', u) ∧
       (name ∈ u → m = ["Circular dependency detected: " +:+ name])) →
  ∀ order missing resolved unresolved order' missing' resolved' unresolved',
    resolve_names rec names order missing resolved unresolved =
      Some (order', missing', resolved', unresolved') →
    unresolved' = unresolved ∧
    (∀ msg, msg ∈ missing → msg ∈ missing') ∧
    (∀ name, name ∈ names → name ∈ unresolved →
       "Circular dependency detected: " +:+ name ∈ missing').
Proof.
  intros Hrec. induction names as [|name names IH];
    intros order missing resolved unresolved order' missing' resolved' unresolved';
    cbn [resolve_names].
  - intros [= <- <- <- <-]. split; [done|]. split; [done|].
    by intros ? ?%elem_of_nil.
  - destruct (rec name resolved unresolved) as [res|] eqn:Hcall; [|done].
    destruct (Hrec _ _ _ _ Hcall) as (o & m & r' & -> & Hmsg). simpl.
    intros (-> & Hincl & Hrest)%IH. split; [done|]. split.
    + intros msg Hin. apply Hincl, elem_of_app. by left.
    + intros name' [->|Hin]%elem_of_cons Hu; [|by apply Hrest].
      apply Hincl, elem_of_app. right. rewrite (Hmsg Hu).
      by apply list_elem_of_singleton.
Qed.

Lemma resolve_restores_stack fuel name resolved unresolved res :
  resolve_skill_dependencies_fuel fuel skills name resolved unresolved = Some res →
  ∃ o m r', res = (o, m, r', unresolved) ∧
    (name ∈ unresolved → m = ["Circular dependency detected: " +:+ name]).
Proof.
  revert name resolved unresolved res.
  induction fuel as [|fuel IH]; intros name resolved unresolved res; [done|].
  destruct (decide (name ∈ unresolved)) as [Hu|Hu].
  { rewrite resolve_circular by done. intros [= <-]. by eexists _, _, _. }
  destruct (decide (name ∈ resolved)) as [Hr|Hr].
  { rewrite resolve_already by done. intros [= <-]. by eexists _, _, _. }
  destruct (PyDict.get skills name) as [skill|] eqn:Hget.
  2:{ rewrite resolve_not_found by done. intros [= <-]. by eexists _, _, _. }
  rewrite (resolve_enter _ _ _ _ _ skill) by done.
  destruct (resolve_names _ _ _ _ _ _) as [[[[o m] r] u]|] eqn:Hloop; [|done].
  simpl. intros [= <-].
  apply (resolve_names_reports_cycle _ _ IH) in Hloop as (-> & _ & _).
  exists (o ++ [name]), m, (r ∪ {[name]}). split; [|done].
  f_equal. set_solver.
Qed.

Lemma resolve_self_dependency_message name skill dep :
  PyDict.get skills name = Some skill →
  dep ∈ deps_skills (meta_dependencies skill) →
  dep_name dep = name →
  dep_required dep || dep_auto_load dep = true →
  ∃ order missing,
    resolve_skill_dependencies name skills = Some (order, missing) ∧
    "Circular dependency detected: " +:+ name ∈ missing.
Proof.
  intros Hget Hdep Hname Hact.
  destruct (resolve_skill_dependencies_total skills name)
    as (order & missing & resolved & Hrun & Hres).
  exists order, missing. split; [done|].
  rewrite (resolve_enter _ _ _ _ _ skill) in Hrun by (done || set_solver).
  destruct (resolve_names _ _ _ _ _ _) as [[[[o m] r] u]|] eqn:Hloop; [|done].
  simpl in Hrun. injection Hrun as <- <- <- _.
  apply (resolve_names_reports_cycle _ _
           (resolve_restores_stack (length skills))) in Hloop
    as (_ & _ & Hmsg).
  apply Hmsg; [|set_solver].
  unfold ordering_deps. apply list_elem_of_fmap. exists dep. split; [done|].
  by apply list_elem_of_filter.
Qed.
End resolve_cycle_message.

(** C5: [resolve_skill_dependencies] returns on every registry and every
    name, cyclic registries included (a budget of one more than the number
    of registered skills always suffices and a larger one changes
    nothing); and when [A] declares a required dependency on itself the
    missing list contains "Circular dependency detected: A". *)
Theorem resolve_terminates_and_reports_self_cycle (skills : registry) :
  (∀ name, ∃ order missing resolved,
      resolve_skill_dependencies name skills = Some (order, missing) ∧
      ∀ fuel, (length skills < fuel)%nat →
        resolve_skill_dependencies_fuel fuel skills name ∅ ∅ =
          Some (order, missing, resolved, ∅)) ∧
  (∀ A skill dep,
      PyDict.get skills A = Some skill →
      dep ∈ deps_skills (meta_dependencies skill) →
      dep_name dep = A →
      dep_required dep = true →
      ∃ order missing,
        resolve_skill_dependencies A skills = Some (order, missing) ∧
        "Circular dependency detected: " +:+ A ∈ missing).
Proof.
  split.
  - intros name.
    destruct (resolve_skill_dependencies_total skills name)
      as (order & missing & resolved & Hrun & Hres).
    exists order, missing, resolved. split; [done|].
    intros fuel Hfuel. eapply resolve_fuel_mono; [|exact Hrun]. lia.
  - intros A skill dep Hget Hdep Hname Hreq.
    eapply resolve_self_dependency_message; eauto. by rewrite Hreq.
Qed.

Lemma resolve_terminates_and_reports_self_cycle_witness :
  ∃ order missing,
    resolve_skill_dependencies "A" self_registry = Some (order, missing) ∧
    "Circular dependency detected: A" ∈ missing.
Proof.
  destruct (resolve_terminates_and_reports_self_cycle self_registry) as [_ Hself].
  apply (Hself "A" (sample_skill "A" [sample_dep "A" true false] [])
           (sample_dep "A" true false)).
  - reflexivity.
  - apply list_elem_of_singleton. reflexivity.
  - reflexivity.
  - reflexivity.
Defined.

(** C6: on a diamond (the resolver follows [B] and [C] from [A], and [D]
    from each of [B] and [C]; nothing from [D]) resolving [A] gives the
    order [D; B; C; A] with nothing missing: [D] occurs exactly once,
    ahead of [B] and of [C], and both are ahead of [A]. *)
Theorem resolve_diamond
    (skills : registry) (A B C D : string) (a b c d : SkillMeta) :
  PyDict.get skills A = Some a → ordering_deps a = [B; C] →
  PyDict.get skills B = Some b → ordering_deps b = [D] →
  PyDict.get skills C = Some c → ordering_deps c = [D] →
  PyDict.get skills D = Some d → ordering_deps d = [] →
  B ≠ C →
  ∃ order,
    resolve_skill_dependencies A skills = Some (order, []) ∧
    order = [D; B; C; A] ∧
    length (filter (fun x => x = D) order) = 1%nat ∧
    before order D B ∧ before order D C ∧
    before order B A ∧ before order C A.
Proof.
  intros HA Ha HB Hb HC Hc HD Hd HBC.
  assert (A ≠ B) by (intros ->; congruence).
  assert (A ≠ C) by (intros ->; congruence).
  assert (A ≠ D) by (intros ->; congruence).
  assert (B ≠ D) by (intros ->; congruence).
  assert (C ≠ D) by (intros ->; congruence).
  exists [D; B; C; A]. split; [|split; [done|split]].
  - eapply (resolve_skill_dependencies_by_fuel skills 3 A).
    rewrite (resolve_enter _ _ _ _ _ a) by (done || set_solver).
    rewrite Ha. cbn [resolve_names].
    rewrite (resolve_enter _ _ _ _ _ b) by (done || set_solver).
    rewrite Hb. cbn [resolve_names].
    rewrite (resolve_enter _ _ _ _ _ d) by (done || set_solver).
    rewrite Hd. cbn [resolve_names mbind option_bind app].
    rewrite (resolve_enter _ _ _ _ _ c) by (done || set_solver).
    rewrite Hc. cbn [resolve_names].
    rewrite resolve_already by set_solver.
    simpl. reflexivity.
  - rewrite filter_cons_True by done.
    rewrite !filter_cons_False by congruence. done.
  - repeat split.
    + exists 0%nat, 1%nat. repeat split; lia.
    + exists 0%nat, 2%nat. repeat split; lia.
    + exists 1%nat, 3%nat. repeat split; lia.
    + exists 2%nat, 3%nat. repeat split; lia.
Qed.

Lemma resolve_diamond_witness :
  ∃ order,
    resolve_skill_dependencies "A" diamond_registry = Some (order, []) ∧
    order = ["D"; "B"; "C"; "A"] ∧
    length (filter (fun x => x = "D") order) = 1%nat ∧
    before order "D" "B" ∧ before order "D" "C" ∧
    before order "B" "A" ∧ before order "C" "A".
Proof.
  apply (resolve_diamond diamond_registry "A" "B" "C" "D"
           (sample_skill "A" [sample_dep "B" true false; sample_dep "C" true false]
              [sample_tool "a" []])
           (sample_skill "B" [sample_dep "D" true false] [sample_tool "b" []])
           (sample_skill "C" [sample_dep "D" true false] [sample_tool "c" []])
           (sample_skill "D" [] [sample_tool "d" []]));
    try reflexivity.
  discriminate.
Defined.

(** ** The resolver orders dependencies first *)

Section resolve_order.
Context (skills : registry).
Hypothesis Hacyclic : acyclic (ordering_edge skills).

Lemma ordering_edge_deps s skill d :
  PyDict.get skills s = Some skill →
  ordering_edge skills s d ↔ d ∈ ordering_deps skill.
Proof.
  intros Hget. unfold ordering_edge, ordering_deps.
  rewrite list_elem_of_fmap. split.
  - intros (skill' & dep & Hget' & Hin & Hname & Hact).
    assert (skill' = skill) as -> by congruence.
    exists dep. split; [done|]. by apply list_elem_of_filter.
  - intros (dep & -> & (Hact & Hin)%list_elem_of_filter).
    by exists skill, dep.
Qed.

Lemma placed_after_app R o1 o2 :
  placed_after skills R o1 →
  placed_after skills (R ∪ list_to_set o1) o2 →
  placed_after skills R (o1 ++ o2).
Proof.
  intros H1 H2 i s d Hi Hedge Hreg.
  apply lookup_app_Some in Hi as [Hi|[Hlen Hi]].
  - destruct (H1 i s d Hi Hedge Hreg) as [?|(j & Hj & Hd)]; [by left|].
    right. exists j. split; [done|]. by apply lookup_app_l_Some.
  - destruct (H2 _ s d Hi Hedge Hreg) as [[?|Hin]%elem_of_union|(j & Hj & Hd)].
    + by left.
    + apply elem_of_list_to_set, list_elem_of_lookup in Hin as [j Hj].
      right. exists j. split.
      * apply lookup_lt_Some in Hj. lia.
      * by apply lookup_app_l_Some.
    + right. exists (length o1 + j)%nat. split; [lia|].
      rewrite lookup_app_r by lia.
      by replace (length o1 + j - length o1)%nat with j by lia.
Qed.

Lemma resolve_names_sound rec names :
  resolve_call_sound skills rec →
  ∀ order0 missing0 R U order missing R' U',
    resolve_names rec names order0 missing0 R U = Some (order, missing, R', U') →
    closed_under skills R →
    (∀ d u, d ∈ names → u ∈ U → tc (ordering_edge skills) u d) →
    ∃ placed,
      order = order0 ++ placed ∧ U' = U ∧ R' = R ∪ list_to_set placed ∧
      NoDup placed ∧
      (∀ x, x ∈ placed → (x ∉ R) ∧ (x ∉ U) ∧ is_Some (PyDict.get skills x)) ∧
      closed_under skills R' ∧ placed_after skills R placed ∧
      (∀ d, d ∈ names → is_Some (PyDict.get skills d) → d ∈ R').
Proof.
  intros Hrec. induction names as [|d names IH];
    intros order0 missing0 R U order missing R' U'; cbn [resolve_names].
  - intros [= <- <- <- <-] Hclosed _. exists []. rewrite app_nil_r.
    split_and!; try done.
    + set_solver.
    + apply NoDup_nil_2.
    + by intros ? ?%elem_of_nil.
    + by intros ? ?%elem_of_nil.
  - destruct (rec d R U) as [[[[o1 m1] R1] U1]|] eqn:Hcall; [|done]. simpl.
    intros Hloop Hclosed Hstack.
    destruct (Hrec _ _ _ _ _ _ _ Hcall Hclosed)
      as (-> & -> & Hnd1 & Hfresh1 & Hclosed1 & Hplaced1 & Hd).
    { intros u Hu. apply Hstack; [|done]. apply elem_of_cons. by left. }
    destruct (IH _ _ _ _ _ _ _ _ Hloop Hclosed1)
      as (o2 & -> & -> & -> & Hnd2 & Hfresh2 & Hclosed2 & Hplaced2 & Hrest).
    { intros d' u Hd' Hu. apply Hstack; [|done]. apply elem_of_cons. by right. }
    exists (o1 ++ o2). rewrite app_assoc. split; [done|]. split; [done|].
    split; [set_solver|]. split.
    { apply NoDup_app. split; [done|]. split; [|done].
      intros x Hx1 Hx2. destruct (Hfresh2 x Hx2) as (Hnot & _). set_solver. }
    split.
    { intros x [Hx|Hx]%elem_of_app; [by apply Hfresh1|].
      destruct (Hfresh2 x Hx) as (Hnot & ? & ?). split_and!; try done;
        set_solver. }
    split.
    { by replace (R ∪ list_to_set (o1 ++ o2))
        with (R ∪ list_to_set o1 ∪ list_to_set o2) by set_solver. }
    split; [by apply placed_after_app|].
    intros d' [->|Hd']%elem_of_cons Hreg.
    + specialize (Hd Hreg). set_solver.
    + specialize (Hrest d' Hd' Hreg). set_solver.
Qed.

Lemma resolve_sound fuel :
  resolve_call_sound skills (resolve_skill_dependencies_fuel fuel skills).
Proof.
  induction fuel as [|fuel IH];
    intros name R U order missing R' U' Hrun Hclosed Hstack; [done|].
  destruct (decide (name ∈ U)) as [Hu|Hu].
  { by destruct (Hacyclic name (Hstack name Hu)). }
  destruct (decide (name ∈ R)) as [Hr|Hr].
  { rewrite resolve_already in Hrun by done. injection Hrun as <- <- <- <-.
    split_and!; try done.
    - set_solver.
    - apply NoDup_nil_2.
    - by intros ? ?%elem_of_nil. }
  destruct (PyDict.get skills name) as [skill|] eqn:Hget.
  2:{ rewrite resolve_not_found in Hrun by done.
      injection Hrun as <- <- <- <-.
      split_and!; try done.
      - set_solver.
      - apply NoDup_nil_2.
      - by intros ? ?%elem_of_nil. }
  rewrite (resolve_enter _ _ _ _ _ skill) in Hrun by done.
  destruct (resolve_names _ _ _ _ _ _) as [[[[o m] R1] U1]|] eqn:Hloop; [|done].
  simpl in Hrun. injection Hrun as <- <- <- <-.
  destruct (resolve_names_sound _ _ IH _ _ _ _ _ _ _ _ Hloop Hclosed)
    as (placed & Ho & -> & -> & Hnd & Hfresh & Hclosed' & Hplaced & Hdeps).
  { intros d u Hd Hin. apply (ordering_edge_deps _ _ _ Hget) in Hd.
    apply elem_of_union in Hin as [Hin|Hin%elem_of_singleton].
    - eapply tc_r; [by apply Hstack|done].
    - subst u. by apply tc_once. }
  simpl in Ho. subst o.
  assert (name ∉ placed) as Hfresh_name.
  { intros Hin. destruct (Hfresh name Hin) as (_ & Hnot & _). set_solver. }
  split; [set_solver|]. split; [set_solver|]. split.
  { apply NoDup_app. split; [done|]. split.
    - intros x Hx Heq%list_elem_of_singleton. by subst x.
    - apply NoDup_singleton. }
  split.
  { intros x [Hx|Heq%list_elem_of_singleton]%elem_of_app.
    - destruct (Hfresh x Hx) as (? & ? & ?). split_and!; try done; set_solver.
    - subst x. split_and!; try done; by exists skill. }
  split.
  { intros s d [Hs|Heq%elem_of_singleton]%elem_of_union Hedge Hreg.
    - apply elem_of_union. left. by apply (Hclosed' s d).
    - subst s. apply elem_of_union. left. apply Hdeps; [|done].
      by apply (ordering_edge_deps _ _ _ Hget). }
  split.
  { apply placed_after_app; [done|].
    intros i s d Hi Hedge Hreg.
    apply list_lookup_singleton_Some in Hi as [-> <-].
    left. apply Hdeps; [|done]. by apply (ordering_edge_deps _ _ _ Hget). }
  intros _. set_solver.
Qed.
End resolve_order.

Lemma ranked_by_edge rank skills s d :
  ranked_by rank skills = true → ordering_edge skills s d →
  (rank d < rank s)%nat.
Proof.
  intros Hranked (skill & dep & Hget & Hin & <- & Hact).
  apply PyDictFacts.get_Some_elem_of in Hget.
  unfold ranked_by in Hranked. rewrite forallb_forall in Hranked.
  apply list_elem_of_In in Hget. specialize (Hranked _ Hget). simpl in Hranked.
  rewrite forallb_forall in Hranked.
  apply list_elem_of_In in Hin. specialize (Hranked _ Hin).
  rewrite Hact in Hranked. by apply Nat.ltb_lt.
Qed.

Lemma ranked_by_acyclic rank skills :
  ranked_by rank skills = true → acyclic (ordering_edge skills).
Proof.
  intros Hranked x Hcycle.
  assert (∀ a b, tc (ordering_edge skills) a b → (rank b < rank a)%nat) as Hlt.
  { induction 1 as [a b Hab|a b c Hab _ IH].
    - by eapply ranked_by_edge.
    - pose proof (ranked_by_edge _ _ _ _ Hranked Hab). lia. }
  specialize (Hlt x x Hcycle). lia.
Qed.

(** C1: on a registry whose required/auto-load edges form no cycle,
    resolving a registered skill returns an order that contains the skill
    and in which no element stands ahead of something it depends on
    through such an edge; every registered dependency of an element
    stands ahead of it. *)
Theorem resolve_places_dependencies_first (skills : registry) (name : string) :
  acyclic (ordering_edge skills) →
  is_Some (PyDict.get skills name) →
  ∃ order missing,
    resolve_skill_dependencies name skills = Some (order, missing) ∧
    name ∈ order ∧ NoDup order ∧
    ∀ s d, s ∈ order → ordering_edge skills s d →
      ¬ before order s d ∧
      (is_Some (PyDict.get skills d) → before order d s).
Proof.
  intros Hacyclic Hreg.
  destruct (resolve_skill_dependencies_total skills name)
    as (order & missing & resolved & Hrun & Hres).
  exists order, missing. split; [done|].
  destruct (resolve_sound skills Hacyclic _ _ _ _ _ _ _ _ Hrun)
    as (_ & Hresolved & Hnd & Hfresh & _ & Hplaced & Hname).
  { by intros s d ?%not_elem_of_empty. }
  { by intros u ?%not_elem_of_empty. }
  split; [specialize (Hname Hreg); set_solver|]. split; [done|].
  intros s d Hs Hedge.
  assert (∀ i, order !! i = Some s → is_Some (PyDict.get skills d) →
               ∃ j, (j < i)%nat ∧ order !! j = Some d) as Hahead.
  { intros i Hi Hd.
    destruct (Hplaced i s d Hi Hedge Hd) as [?%not_elem_of_empty|?]; done. }
  split.
  - intros (i & j & Hi & Hj & Hij).
    assert (d ∈ order) as Hd by (apply list_elem_of_lookup; eauto).
    destruct (Hfresh d Hd) as (_ & _ & Hdreg).
    destruct (Hahead i Hi Hdreg) as (j' & Hj' & Hd').
    pose proof (NoDup_lookup _ _ _ _ Hnd Hj Hd'). lia.
  - intros Hd. apply list_elem_of_lookup in Hs as [i Hi].
    destruct (Hahead i Hi Hd) as (j & Hj & Hd'). by exists j, i.
Qed.

Lemma resolve_places_dependencies_first_witness :
  ∃ order missing,
    resolve_skill_dependencies "A" diamond_registry = Some (order, missing) ∧
    "A" ∈ order ∧ NoDup order ∧
    ∀ s d, s ∈ order → ordering_edge diamond_registry s d →
      ¬ before order s d ∧
      (is_Some (PyDict.get diamond_registry d) → before order d s).
Proof.
  apply (resolve_places_dependencies_first diamond_registry "A").
  - apply (ranked_by_acyclic diamond_rank). vm_compute. reflexivity.
  - vm_compute. eexists. reflexivity.
Defined.

(** ** The tool aggregator: what is visited, and in which order *)

Section collect_tools_order.
Context (skills : registry).

Lemma collect_tools_deps_names rec deps st :
  collect_tools_deps rec deps st =
  collect_names rec
    (map dep_name (filter (fun dep => dep_auto_load dep = true) deps)) st.
Proof.
  revert st. induction deps as [|dep deps IH]; intros st; [done|].
  cbn [collect_tools_deps]. destruct (dep_auto_load dep) eqn:Hauto.
  - rewrite filter_cons_True by done. cbn [map collect_names].
    destruct (rec (dep_name dep) st); [|done]. simpl. apply IH.
  - rewrite filter_cons_False by (by rewrite Hauto). apply IH.
Qed.

Lemma collect_tools_memoized fuel name resolved all_tools :
  name ∈ resolved →
  collect_tools (S fuel) skills name (resolved, all_tools) =
  Some (resolved, all_tools).
Proof. intros Hin. cbn [collect_tools]. by rewrite decide_True. Qed.

Lemma collect_tools_unregistered fuel name resolved all_tools :
  PyDict.get skills name = None →
  collect_tools (S fuel) skills name (resolved, all_tools) =
  Some (resolved, all_tools).
Proof. intros Hget. cbn [collect_tools]. rewrite Hget. by case_decide. Qed.

Lemma collect_tools_enter fuel name resolved all_tools skill :
  name ∉ resolved → PyDict.get skills name = Some skill →
  collect_tools (S fuel) skills name (resolved, all_tools) =
  '(resolved, all_tools) ←
    collect_names (collect_tools fuel skills) (auto_deps skill)
      (resolved ∪ {[name]}, all_tools);
  Some (resolved, all_tools ++ meta_tools skill).
Proof.
  intros Hnin Hget. cbn [collect_tools].
  by rewrite decide_False, Hget, collect_tools_deps_names.
Qed.

Lemma auto_edge_deps s skill d :
  PyDict.get skills s = Some skill →
  auto_edge skills s d ↔ d ∈ auto_deps skill.
Proof.
  intros Hget. unfold auto_edge, auto_deps.
  rewrite list_elem_of_fmap. split.
  - intros (skill' & dep & Hget' & Hin & Hname & Hauto).
    assert (skill' = skill) as -> by congruence.
    exists dep. split; [done|]. by apply list_elem_of_filter.
  - intros (dep & -> & (Hauto & Hin)%list_elem_of_filter).
    by exists skill, dep.
Qed.

Lemma tools_of_registered name skill :
  PyDict.get skills name = Some skill → tools_of skills name = meta_tools skill.
Proof. unfold tools_of. by intros ->. Qed.

Lemma visit_order_app R v1 v2 :
  visit_order skills R v1 →
  visit_order skills (R ∪ list_to_set v1) v2 →
  visit_order skills R (v1 ++ v2).
Proof.
  intros H1 H2 i x d Hi Hedge Hreg.
  apply lookup_app_Some in Hi as [Hi|[Hlen Hi]].
  - destruct (H1 i x d Hi Hedge Hreg) as [?|[(j & Hj & Hd)|[Hin Htc]]].
    + by left.
    + right; left. exists j. split; [done|]. by apply lookup_app_l_Some.
    + right; right. split; [|done]. apply elem_of_app. by left.
  - destruct (H2 _ x d Hi Hedge Hreg)
      as [[?|Hin]%elem_of_union|[(j & Hj & Hd)|[Hin Htc]]].
    + by left.
    + apply elem_of_list_to_set, list_elem_of_lookup in Hin as [j Hj].
      right; left. exists j. split.
      * apply lookup_lt_Some in Hj. lia.
      * by apply lookup_app_l_Some.
    + right; left. exists (length v1 + j)%nat. split; [lia|].
      rewrite lookup_app_r by lia.
      by replace (length v1 + j - length v1)%nat with j by lia.
    + right; right. split; [|done]. apply elem_of_app. by right.
Qed.

Lemma collect_names_sound rec names :
  tools_call_sound skills rec →
  ∀ resolved all_tools resolved' all_tools',
    collect_names rec names (resolved, all_tools) = Some (resolved', all_tools') →
    ∃ visited,
      all_tools' = all_tools ++ (visited ≫= tools_of skills) ∧
      resolved' = resolved ∪ list_to_set visited ∧
      NoDup visited ∧
      (∀ x, x ∈ visited →
         (x ∉ resolved) ∧ is_Some (PyDict.get skills x) ∧
         ∃ d, d ∈ names ∧ rtc (auto_edge skills) d x) ∧
      (∀ d, d ∈ names → is_Some (PyDict.get skills d) → d ∈ resolved') ∧
      visit_order skills resolved visited.
Proof.
  intros Hrec. induction names as [|d names IH];
    intros resolved all_tools resolved' all_tools'; cbn [collect_names].
  - intros [= <- <-]. exists []. rewrite app_nil_r.
    split_and!; try done.
    + set_solver.
    + apply NoDup_nil_2.
    + by intros ? ?%elem_of_nil.
    + by intros ? ?%elem_of_nil.
  - destruct (rec d (resolved, all_tools)) as [[r1 t1]|] eqn:Hcall; [|done].
    simpl. intros Hloop.
    destruct (Hrec _ _ _ _ _ Hcall)
      as (v1 & -> & -> & Hnd1 & Hfresh1 & Hd & Hord1).
    destruct (IH _ _ _ _ Hloop)
      as (v2 & -> & -> & Hnd2 & Hfresh2 & Hrest & Hord2).
    exists (v1 ++ v2). split_and!.
    + by rewrite bind_app, app_assoc.
    + set_solver.
    + apply NoDup_app. split; [done|]. split; [|done].
      intros x Hx1 Hx2. destruct (Hfresh2 x Hx2) as (Hnot & _). set_solver.
    + intros x [Hx|Hx]%elem_of_app.
      * destruct (Hfresh1 x Hx) as (? & ? & ?). split_and!; try done.
        exists d. split; [apply elem_of_cons; by left|done].
      * destruct (Hfresh2 x Hx) as (Hnot & ? & (d' & ? & ?)).
        split_and!; try done; [set_solver|].
        exists d'. split; [apply elem_of_cons; by right|done].
    + intros d' [->|Hd']%elem_of_cons Hreg.
      * specialize (Hd Hreg). set_solver.
      * specialize (Hrest d' Hd' Hreg). set_solver.
    + by apply visit_order_app.
Qed.

Lemma collect_tools_sound fuel :
  tools_call_sound skills (collect_tools fuel skills).
Proof.
  induction fuel as [|fuel IH];
    intros name resolved all_tools resolved' all_tools' Hrun; [done|].
  destruct (decide (name ∈ resolved)) as [Hr|Hr].
  { rewrite collect_tools_memoized in Hrun by done. injection Hrun as <- <-.
    exists []. rewrite app_nil_r. split_and!; try done.
    - set_solver.
    - apply NoDup_nil_2.
    - by intros ? ?%elem_of_nil. }
  destruct (PyDict.get skills name) as [skill|] eqn:Hget.
  2:{ rewrite collect_tools_unregistered in Hrun by done.
      injection Hrun as <- <-.
      exists []. rewrite app_nil_r. split_and!; try done.
      - set_solver.
      - apply NoDup_nil_2.
      - by intros ? ?%elem_of_nil. }
  rewrite (collect_tools_enter _ _ _ _ skill) in Hrun by done.
  destruct (collect_names _ _ _) as [[r1 t1]|] eqn:Hloop; [|done].
  simpl in Hrun. injection Hrun as <- <-.
  destruct (collect_names_sound _ _ IH _ _ _ _ Hloop)
    as (v & -> & -> & Hnd & Hfresh & Hdeps & Hord).
  assert (name ∉ v) as Hfresh_name.
  { intros Hin. destruct (Hfresh name Hin) as (Hnot & _). set_solver. }
  assert (∀ x, x ∈ v → tc (auto_edge skills) name x) as Hreach.
  { intros x Hx. destruct (Hfresh x Hx) as (_ & _ & d & Hd & Hrtc).
    eapply tc_rtc_r; [|done].
    apply tc_once. by apply (auto_edge_deps _ _ _ Hget). }
  exists (v ++ [name]). split_and!.
  - rewrite bind_app, bind_singleton, (tools_of_registered _ _ Hget).
    by rewrite app_assoc.
  - set_solver.
  - apply NoDup_app. split; [done|]. split.
    + intros x Hx Heq%list_elem_of_singleton. by subst x.
    + apply NoDup_singleton.
  - intros x [Hx|Heq%list_elem_of_singleton]%elem_of_app.
    + destruct (Hfresh x Hx) as (? & ? & ?). split_and!; try done.
      * set_solver.
      * by apply tc_rtc, Hreach.
    + subst x. split_and!; try done; by exists skill.
  - intros _. set_solver.
  - intros i x d Hi Hedge Hreg.
    apply lookup_app_Some in Hi as [Hi|[Hlen Hi]].
    + destruct (Hord i x d Hi Hedge Hreg)
        as [[?|Heq%elem_of_singleton]%elem_of_union|[(j & Hj & Hd)|[Hin Htc]]].
      * by left.
      * subst d. right; right. split.
        -- apply elem_of_app. right. by apply list_elem_of_singleton.
        -- apply Hreach. apply list_elem_of_lookup. eauto.
      * right; left. exists j. split; [done|]. by apply lookup_app_l_Some.
      * right; right. split; [|done]. apply elem_of_app. by left.
    + apply list_lookup_singleton_Some in Hi as [Hi <-].
      assert (d ∈ auto_deps skill) as Hd
        by by apply (auto_edge_deps _ _ _ Hget).
      pose proof (Hdeps d Hd Hreg) as Hin.
      apply elem_of_union in Hin as [Hin|Hin].
      * apply elem_of_union in Hin as [Hin|Heq%elem_of_singleton].
        -- by left.
        -- subst d. right; right. split.
           ++ apply elem_of_app. right. by apply list_elem_of_singleton.
           ++ by apply tc_once.
      * apply elem_of_list_to_set, list_elem_of_lookup in Hin as [j Hj].
        right; left. exists j. split.
        -- apply lookup_lt_Some in Hj. lia.
        -- by apply lookup_app_l_Some.
Qed.

Lemma collect_tools_fuel_agree fuel fuel' name st res res' :
  collect_tools fuel skills name st = Some res →
  collect_tools fuel' skills name st = Some res' →
  res = res'.
Proof.
  intros H H'. destruct (decide (fuel ≤ fuel')%nat) as [Hle|Hgt].
  - apply (collect_tools_fuel_mono _ _ _ _ _ _ Hle) in H. congruence.
  - assert (fuel' ≤ fuel)%nat as Hle by lia.
    apply (collect_tools_fuel_mono _ _ _ _ _ _ Hle) in H'. congruence.
Qed.

Lemma get_tools_for_skill_by_fuel fuel name resolved tools :
  collect_tools fuel skills name (∅, []) = Some (resolved, tools) →
  get_tools_for_skill name skills = Some tools.
Proof.
  intros Hrun.
  destruct (get_tools_for_skill_total skills name) as (r & t & Hrun' & ->).
  pose proof (collect_tools_fuel_agree _ _ _ _ _ _ Hrun Hrun'). by simplify_eq.
Qed.
End collect_tools_order.

Section get_tools_visits.
Context (skills : registry).

Lemma get_tools_visits name :
  ∃ visited,
    get_tools_for_skill name skills = Some (visited ≫= tools_of skills) ∧
    NoDup visited ∧
    (∀ x, x ∈ visited ↔
          is_Some (PyDict.get skills x) ∧ rtc (auto_edge skills) name x) ∧
    (∀ x d, x ∈ visited → auto_edge skills x d →
            is_Some (PyDict.get skills d) →
            before visited d x ∨ (d ∈ visited ∧ tc (auto_edge skills) d x)).
Proof.
  destruct (get_tools_for_skill_total skills name)
    as (resolved & tools & Hrun & Hget).
  destruct (collect_tools_sound skills _ _ _ _ _ _ Hrun)
    as (visited & Htools & Hres & Hnd & Hfresh & Hname & Hord).
  simpl in Htools. subst tools.
  assert (∀ x d, x ∈ visited → auto_edge skills x d →
            is_Some (PyDict.get skills d) →
            before visited d x ∨ (d ∈ visited ∧ tc (auto_edge skills) d x))
    as Hafter.
  { intros x d [i Hi]%list_elem_of_lookup Hedge Hreg.
    destruct (Hord i x d Hi Hedge Hreg)
      as [?%not_elem_of_empty|[(j & Hj & Hd)|?]]; [done| |by right].
    left. by exists j, i. }
  exists visited. split_and!; try done.
  intros x. split.
  - intros Hx. destruct (Hfresh x Hx) as (_ & ? & ?). done.
  - intros [Hreg Hreach]. revert x Hreach Hreg.
    apply (rtc_ind_r (fun x => is_Some (PyDict.get skills x) → x ∈ visited)).
    + intros Hreg. specialize (Hname Hreg). set_solver.
    + intros y z Hy Hedge IH Hreg.
      assert (y ∈ visited) as Hyv.
      { apply IH. destruct Hedge as (skill & _ & Hget' & _). by exists skill. }
      destruct (Hafter y z Hyv Hedge Hreg) as [(i & j & Hi & _)|[? _]]; [|done].
      apply list_elem_of_lookup. eauto.
Qed.

Lemma get_tools_chain A B C a b c :
  PyDict.get skills A = Some a → auto_deps a = [B] →
  PyDict.get skills B = Some b → auto_deps b = [C] →
  PyDict.get skills C = Some c → auto_deps c = [] →
  get_tools_for_skill A skills =
    Some (meta_tools c ++ meta_tools b ++ meta_tools a).
Proof.
  intros HA Ha HB Hb HC Hc.
  assert (B ≠ C) by (intros ->; congruence).
  assert (A ≠ C) by (intros ->; congruence).
  assert (A ≠ B) by (intros ->; congruence).
  eapply (get_tools_for_skill_by_fuel skills 3 A).
  rewrite (collect_tools_enter _ _ _ _ _ a) by (done || set_solver).
  rewrite Ha. cbn [collect_names].
  rewrite (collect_tools_enter _ _ _ _ _ b) by (done || set_solver).
  rewrite Hb. cbn [collect_names].
  rewrite (collect_tools_enter _ _ _ _ _ c) by (done || set_solver).
  rewrite Hc. simpl. by rewrite <- app_assoc.
Qed.

Lemma get_tools_two_paths A B C D a b c d :
  PyDict.get skills A = Some a → auto_deps a = [B; C] →
  PyDict.get skills B = Some b → auto_deps b = [D] →
  PyDict.get skills C = Some c → auto_deps c = [D] →
  PyDict.get skills D = Some d → auto_deps d = [] →
  B ≠ C →
  get_tools_for_skill A skills =
    Some (meta_tools d ++ meta_tools b ++ meta_tools c ++ meta_tools a).
Proof.
  intros HA Ha HB Hb HC Hc HD Hd HBC.
  assert (A ≠ B) by (intros ->; congruence).
  assert (A ≠ C) by (intros ->; congruence).
  assert (A ≠ D) by (intros ->; congruence).
  assert (B ≠ D) by (intros ->; congruence).
  assert (C ≠ D) by (intros ->; congruence).
  eapply (get_tools_for_skill_by_fuel skills 3 A).
  rewrite (collect_tools_enter _ _ _ _ _ a) by (done || set_solver).
  rewrite Ha. cbn [collect_names].
  rewrite (collect_tools_enter _ _ _ _ _ b) by (done || set_solver).
  rewrite Hb. cbn [collect_names].
  rewrite (collect_tools_enter _ _ _ _ _ d) by (done || set_solver).
  rewrite Hd. cbn [collect_names mbind option_bind app].
  rewrite (collect_tools_enter _ _ _ _ _ c) by (done || set_solver).
  rewrite Hc. cbn [collect_names].
  rewrite collect_tools_memoized by set_solver.
  simpl. by rewrite <- !app_assoc.
Qed.
End get_tools_visits.

(** C10: [get_tools_for_skill] returns on every registry and every name,
    cyclic auto-load edges included: each skill is entered at most once
    (the tools returned are those of a duplicate-free sequence of skills),
    so a recursion budget of one more than the number of registered skills
    always suffices, and any larger budget gives the same run. *)
Theorem get_tools_for_skill_terminates (skill_name : string) (skills : registry) :
  ∃ resolved visited,
    NoDup visited ∧
    get_tools_for_skill skill_name skills = Some (visited ≫= tools_of skills) ∧
    ∀ fuel, (length skills < fuel)%nat →
      collect_tools fuel skills skill_name (∅, []) =
        Some (resolved, visited ≫= tools_of skills).
Proof.
  destruct (get_tools_visits skills skill_name) as (visited & Htools & Hnd & _).
  destruct (get_tools_for_skill_total skills skill_name)
    as (resolved & tools & Hrun & Hget).
  assert (tools = visited ≫= tools_of skills) as -> by congruence.
  exists resolved, visited. split_and!; [done..|].
  intros fuel Hfuel. eapply collect_tools_fuel_mono; [|exact Hrun]. lia.
Qed.

Lemma get_tools_for_skill_terminates_on_cycle :
  ∃ resolved visited,
    NoDup visited ∧
    get_tools_for_skill "A" cycle_registry =
      Some (visited ≫= tools_of cycle_registry) ∧
    ∀ fuel, (length cycle_registry < fuel)%nat →
      collect_tools fuel cycle_registry "A" (∅, []) =
        Some (resolved, visited ≫= tools_of cycle_registry).
Proof. apply (get_tools_for_skill_terminates "A" cycle_registry). Defined.

(** C7 (as amended): [get_tools_for_skill] returns the tools of a duplicate-free
    sequence of skills: exactly the registered skills reachable from the
    requested name through auto-load edges (the required flag plays no
    part), each contributing its tools once.  An auto-load dependency of a
    visited skill contributes ahead of it unless the two lie on an
    auto-load cycle; without such cycles every skill's tools come after
    those of its auto-load dependencies.  The result for a registered name
    is what the walk over its auto-load dependencies gathers, taken in
    declaration order, followed by its own tools, and so is every visit of
    a registered skill not visited before.  For a chain A, B, C of
    auto-load edges the result is C's tools, B's, then A's; when D is
    reachable through both B and C, declared in that order, it is D's
    tools, B's, C's, then A's. *)
Theorem get_tools_follows_auto_load (skills : registry) :
  (∀ name, ∃ visited,
      get_tools_for_skill name skills = Some (visited ≫= tools_of skills) ∧
      NoDup visited ∧
      (∀ x, x ∈ visited ↔
            is_Some (PyDict.get skills x) ∧ rtc (auto_edge skills) name x) ∧
      (∀ x d, x ∈ visited → auto_edge skills x d →
              is_Some (PyDict.get skills d) →
              before visited d x ∨ (d ∈ visited ∧ tc (auto_edge skills) d x)) ∧
      (acyclic (auto_edge skills) →
       ∀ x d, x ∈ visited → auto_edge skills x d →
              is_Some (PyDict.get skills d) → before visited d x)) ∧
  (∀ name skill,
      PyDict.get skills name = Some skill →
      ∃ resolved dep_tools,
        collect_names (collect_tools (length skills) skills) (auto_deps skill)
          (∅ ∪ {[name]}, []) = Some (resolved, dep_tools) ∧
        get_tools_for_skill name skills = Some (dep_tools ++ meta_tools skill)) ∧
  (∀ A B C a b c,
      PyDict.get skills A = Some a → auto_deps a = [B] →
      PyDict.get skills B = Some b → auto_deps b = [C] →
      PyDict.get skills C = Some c → auto_deps c = [] →
      get_tools_for_skill A skills =
        Some (meta_tools c ++ meta_tools b ++ meta_tools a)) ∧
  (∀ A B C D a b c d,
      PyDict.get skills A = Some a → auto_deps a = [B; C] →
      PyDict.get skills B = Some b → auto_deps b = [D] →
      PyDict.get skills C = Some c → auto_deps c = [D] →
      PyDict.get skills D = Some d → auto_deps d = [] →
      B ≠ C →
      get_tools_for_skill A skills =
        Some (meta_tools d ++ meta_tools b ++ meta_tools c ++ meta_tools a)) ∧
  (∀ fuel name skill resolved all_tools,
      name ∉ resolved → PyDict.get skills name = Some skill →
      collect_tools (S fuel) skills name (resolved, all_tools) =
        '(resolved', all_tools') ←
          collect_names (collect_tools fuel skills) (auto_deps skill)
            (resolved ∪ {[name]}, all_tools);
        Some (resolved', all_tools' ++ meta_tools skill)).
Proof.
  split_and!; [| | | |by intros; apply collect_tools_enter].
  - intros name.
    destruct (get_tools_visits skills name)
      as (visited & Hrun & Hnd & Hreach & Hafter).
    exists visited. split_and!; try done.
    intros Hacyclic x d Hx Hedge Hreg.
    destruct (Hafter x d Hx Hedge Hreg) as [?|[_ Htc]]; [done|].
    destruct (Hacyclic x). eapply tc_l; done.
  - intros name skill Hget.
    destruct (get_tools_for_skill_total skills name)
      as (resolved & tools & Hrun & Htools).
    rewrite (collect_tools_enter _ _ _ _ _ skill) in Hrun by (done || set_solver).
    destruct (collect_names _ _ _) as [[r1 t1]|]; [|done].
    injection Hrun as <- <-. by exists r1, t1.
  - apply get_tools_chain.
  - apply get_tools_two_paths.
Qed.

Lemma get_tools_follows_auto_load_witness :
  get_tools_for_skill "A" chain_registry =
    Some ([sample_tool "c" []] ++ [sample_tool "b" []] ++ [sample_tool "a" []]).
Proof.
  destruct (get_tools_follows_auto_load chain_registry) as (_ & _ & Hchain & _).
  apply (Hchain "A" "B" "C"
           (sample_skill "A" [sample_dep "B" false true] [sample_tool "a" []])
           (sample_skill "B" [sample_dep "C" true true] [sample_tool "b" []])
           (sample_skill "C" [] [sample_tool "c" []]));
    reflexivity.
Defined.

(** C7 fails as stated on an auto-load cycle: in [cycle_registry] the
    skill B auto-loads A, yet the result for A lists B's tool ahead of
    A's, so tools of a dependency do not always precede those of its
    dependent. *)
Lemma get_tools_cycle_dependency_last :
  ¬ (∀ x d tx td tools,
       auto_edge cycle_registry x d →
       tx ∈ tools_of cycle_registry x →
       td ∈ tools_of cycle_registry d →
       get_tools_for_skill "A" cycle_registry = Some tools →
       ∃ i j, tools !! i = Some td ∧ tools !! j = Some tx ∧ (i < j)%nat).
Proof.
  intros Hclaim.
  destruct (Hclaim "B" "A" (sample_tool "b" ["run"]) (sample_tool "a" ["run"])
              [sample_tool "b" ["run"]; sample_tool "a" ["run"]])
    as (i & j & Hi & Hj & Hij).
  - exists (sample_skill "B" [sample_dep "A" false true] [sample_tool "b" ["run"]]),
      (sample_dep "A" false true).
    split_and!; [reflexivity| |reflexivity..].
    apply list_elem_of_singleton. reflexivity.
  - apply list_elem_of_singleton. reflexivity.
  - apply list_elem_of_singleton. reflexivity.
  - reflexivity.
  - destruct i as [|[|i]]; [discriminate Hi| |discriminate Hi].
    destruct j as [|j]; [lia|].
    destruct j; discriminate Hj.
Qed.

(** ** The cycle detector *)

Section chains.
Context (R : relation string).

Lemma chain_cons_inv x l : chain R (x :: l) → chain R l.
Proof. destruct l as [|y l]; [done|]. by intros [_ ?]. Qed.

Lemma chain_drop n l : chain R l → chain R (drop n l).
Proof.
  revert l. induction n as [|n IH]; intros l Hl; [by rewrite drop_0|].
  destruct l as [|x l]; [done|]. simpl. apply IH. by eapply chain_cons_inv.
Qed.

Lemma chain_snoc l x :
  chain R l → (∀ y, last l = Some y → R y x) → chain R (l ++ [x]).
Proof.
  induction l as [|a l IH]; intros Hl Hlast; [done|].
  destruct l as [|b l].
  - simpl. split; [|done]. by apply Hlast.
  - destruct Hl as [Hab Hl]. change ((a :: b :: l) ++ [x])
      with (a :: (b :: l) ++ [x]).
    change ((b :: l) ++ [x]) with (b :: l ++ [x]) in *.
    split; [done|]. apply IH; [done|].
    intros y Hy. apply Hlast. by rewrite last_cons_cons.
Qed.
End chains.

Section list_index.
Implicit Types (l : list string) (x : string).

Lemma index_lookup l x : x ∈ l → l !! index l x = Some x.
Proof.
  induction l as [|y l IH]; [by intros ?%elem_of_nil|].
  intros Hin. simpl. destruct (decide (y = x)) as [->|Hne]; [done|].
  simpl. apply IH. apply elem_of_cons in Hin as [?|?]; congruence.
Qed.

Lemma last_drop l n y : (n < length l)%nat → last (drop n l) = Some y → last l = Some y.
Proof.
  intros Hn. rewrite !last_lookup, lookup_drop, length_drop.
  intros <-. f_equal. lia.
Qed.

Lemma last_elem_of_drop l n y :
  (n < length l)%nat → last l = Some y → y ∈ drop n l.
Proof.
  intros Hn. rewrite last_lookup. intros Hy.
  apply list_elem_of_lookup. exists (pred (length l) - n)%nat.
  rewrite lookup_drop, <- Hy. f_equal. lia.
Qed.
End list_index.

Section dfs_basics.
Context (skills : registry).

Lemma dfs_deps_names rec deps st :
  dfs_deps rec skills deps st =
  dfs_names rec
    (map dep_name
       (filter (fun dep => PyDict.mem skills (dep_name dep) = true) deps)) st.
Proof.
  revert st. induction deps as [|dep deps IH]; intros st; [done|].
  cbn [dfs_deps]. destruct (PyDict.mem skills (dep_name dep)) eqn:Hmem.
  - rewrite filter_cons_True by done. cbn [map dfs_names].
    destruct (rec (dep_name dep) st); [|done]. simpl. apply IH.
  - rewrite filter_cons_False by (by rewrite Hmem). apply IH.
Qed.

Lemma dfs_on_path fuel name path visited cycles :
  name ∈ path →
  dfs (S fuel) skills name path (visited, cycles) =
  Some (visited, cycles ++ [drop (index path name) path ++ [name]]).
Proof. intros Hin. cbn [dfs]. by rewrite decide_True. Qed.

Lemma dfs_seen fuel name path visited cycles :
  name ∉ path → name ∈ visited →
  dfs (S fuel) skills name path (visited, cycles) = Some (visited, cycles).
Proof. intros Hp Hv. cbn [dfs]. by rewrite decide_False, decide_True. Qed.

Lemma dfs_unregistered fuel name path visited cycles :
  name ∉ path → name ∉ visited → PyDict.get skills name = None →
  dfs (S fuel) skills name path (visited, cycles) =
  Some (visited ∪ {[name]}, cycles).
Proof. intros Hp Hv Hget. cbn [dfs]. by rewrite !decide_False, Hget. Qed.

Lemma dfs_enter fuel name path visited cycles skill :
  name ∉ path → name ∉ visited → PyDict.get skills name = Some skill →
  dfs (S fuel) skills name path (visited, cycles) =
  dfs_names (fun dep_name => dfs fuel skills dep_name (path ++ [name]))
    (registered_deps skills skill) (visited ∪ {[name]}, cycles).
Proof.
  intros Hp Hv Hget. cbn [dfs].
  by rewrite !decide_False, Hget, dfs_deps_names.
Qed.

Lemma any_edge_deps s skill d :
  PyDict.get skills s = Some skill →
  any_edge skills s d ↔ d ∈ registered_deps skills skill.
Proof.
  intros Hget. unfold any_edge, registered_deps.
  rewrite list_elem_of_fmap. split.
  - intros (skill' & dep & Hget' & Hin & Hname & Hmem).
    assert (skill' = skill) as -> by congruence.
    exists dep. split; [done|]. apply list_elem_of_filter. by rewrite Hname.
  - intros (dep & -> & (Hmem & Hin)%list_elem_of_filter).
    by exists skill, dep.
Qed.

Lemma declares_any_edge A B :
  declares skills A B → is_Some (PyDict.get skills B) → any_edge skills A B.
Proof.
  intros (skill & dep & Hget & Hin & Hname) Hreg.
  exists skill, dep. split_and!; try done. by apply PyDictFacts.mem_true.
Qed.

(** Termination. *)
Lemma dfs_names_total n (rec : string → dfs_state → option dfs_state) names :
  (∀ name st, (size (PyDict.dom skills ∖ st.1) < n)%nat →
     ∃ st', rec name st = Some st' ∧ st.1 ⊆ st'.1) →
  ∀ st, (size (PyDict.dom skills ∖ st.1) < n)%nat →
    ∃ st', dfs_names rec names st = Some st' ∧ st.1 ⊆ st'.1.
Proof.
  intros Hrec. induction names as [|name names IH]; intros st Hsz;
    cbn [dfs_names].
  - by exists st.
  - destruct (Hrec name st Hsz) as (st1 & -> & Hsub1). simpl.
    destruct (IH st1) as (st2 & -> & Hsub2).
    + pose proof (size_dom_difference_mono skills _ _ Hsub1). lia.
    + exists st2. split; [done|]. set_solver.
Qed.

Lemma dfs_total fuel name path st :
  (size (PyDict.dom skills ∖ st.1) < fuel)%nat →
  ∃ st', dfs fuel skills name path st = Some st' ∧ st.1 ⊆ st'.1.
Proof.
  revert name path st.
  induction fuel as [|fuel IH]; intros name path [visited cycles] Hsz;
    [simpl in Hsz; lia|].
  simpl in Hsz.
  destruct (decide (name ∈ path)) as [Hp|Hp].
  { rewrite dfs_on_path by done. by eexists. }
  destruct (decide (name ∈ visited)) as [Hv|Hv].
  { rewrite dfs_seen by done. by eexists. }
  destruct (PyDict.get skills name) as [skill|] eqn:Hget.
  2:{ rewrite dfs_unregistered by done. eexists. split; [done|].
      simpl. set_solver. }
  rewrite (dfs_enter _ _ _ _ _ skill) by done.
  pose proof (size_dom_difference_enter skills visited name skill Hget Hv).
  destruct (dfs_names_total fuel
              (fun dep_name => dfs fuel skills dep_name (path ++ [name]))
              (registered_deps skills skill)
              (fun name' st' => IH name' _ st')
              (visited ∪ {[name]}, cycles))
    as (st' & -> & Hsub); [simpl; lia|].
  exists st'. split; [done|]. simpl in *. set_solver.
Qed.

Lemma detect_from_total names cycles :
  ∃ cycles', detect_from skills names cycles = Some cycles'.
Proof.
  revert cycles. induction names as [|name names IH]; intros cycles;
    cbn [detect_from]; [by eexists|].
  destruct (dfs_total (S (length skills)) name [] (∅, cycles))
    as ([visited cycles1] & -> & _).
  - simpl. pose proof (size_dom_difference_le skills ∅). lia.
  - simpl. apply IH.
Qed.
End dfs_basics.

Section dfs_cycles.
Context (skills : registry).

Lemma dfs_names_sound (Pre : string → Prop) rec names :
  (∀ name visited cycles visited' cycles',
     rec name (visited, cycles) = Some (visited', cycles') →
     ∃ new, cycles' = cycles ++ new ∧ visited ⊆ visited' ∧
            (Pre name → ∀ c, c ∈ new → is_cycle skills c)) →
  ∀ visited cycles visited' cycles',
    dfs_names rec names (visited, cycles) = Some (visited', cycles') →
    ∃ new, cycles' = cycles ++ new ∧ visited ⊆ visited' ∧
           ((∀ d, d ∈ names → Pre d) → ∀ c, c ∈ new → is_cycle skills c).
Proof.
  intros Hrec. induction names as [|d names IH];
    intros visited cycles visited' cycles'; cbn [dfs_names].
  - intros [= <- <-]. exists []. rewrite app_nil_r. split_and!; [done..|].
    by intros _ c ?%elem_of_nil.
  - destruct (rec d (visited, cycles)) as [[v1 c1]|] eqn:Hcall; [|done].
    simpl. intros Hloop.
    destruct (Hrec _ _ _ _ _ Hcall) as (new1 & -> & Hsub1 & Hnew1).
    destruct (IH _ _ _ _ Hloop) as (new2 & -> & Hsub2 & Hnew2).
    exists (new1 ++ new2). rewrite app_assoc. split_and!; [done|set_solver|].
    intros Hpre c [Hc|Hc]%elem_of_app.
    + apply Hnew1; [|done]. apply Hpre, elem_of_cons. by left.
    + apply Hnew2; [|done]. intros d' Hd'. apply Hpre, elem_of_cons. by right.
Qed.

Lemma revisit_is_cycle path name :
  name ∈ path → path_ok skills path name →
  is_cycle skills (drop (index path name) path ++ [name]).
Proof.
  intros Hin (Hnd & Hchain & Hlast).
  pose proof (index_lookup _ _ Hin) as Hidx.
  pose proof (lookup_lt_Some _ _ _ Hidx) as Hlt.
  exists name, (drop (S (index path name)) path). split_and!.
  - by rewrite (drop_S _ _ _ Hidx).
  - rewrite <- (drop_S _ _ _ Hidx).
    apply (sublist_NoDup _ path); [done|apply sublist_drop].
  - apply chain_snoc; [by apply chain_drop|].
    intros y Hy. apply Hlast. by eapply last_drop.
Qed.

Lemma dfs_sound fuel : dfs_call_sound skills (dfs fuel skills).
Proof.
  induction fuel as [|fuel IH];
    intros name path visited cycles visited' cycles' Hrun; [done|].
  destruct (decide (name ∈ path)) as [Hp|Hp].
  { rewrite dfs_on_path in Hrun by done. injection Hrun as <- <-.
    eexists. split_and!; [done..|].
    intros Hok c Hc%list_elem_of_singleton. subst c.
    by apply revisit_is_cycle. }
  destruct (decide (name ∈ visited)) as [Hv|Hv].
  { rewrite dfs_seen in Hrun by done. injection Hrun as <- <-.
    exists []. rewrite app_nil_r. split_and!; [done..|].
    by intros _ c ?%elem_of_nil. }
  destruct (PyDict.get skills name) as [skill|] eqn:Hget.
  2:{ rewrite dfs_unregistered in Hrun by done. injection Hrun as <- <-.
      exists []. rewrite app_nil_r. split_and!; [done|set_solver|].
      by intros _ c ?%elem_of_nil. }
  rewrite (dfs_enter _ _ _ _ _ _ skill) in Hrun by done.
  destruct (dfs_names_sound (path_ok skills (path ++ [name])) _ _
              (fun name' => IH name' (path ++ [name])) _ _ _ _ Hrun)
    as (new & -> & Hsub & Hnew).
  exists new. split_and!; [done|set_solver|].
  intros (Hnd & Hchain & Hlast). apply Hnew.
  intros d Hd. split_and!.
  - apply NoDup_app. split; [done|]. split; [|apply NoDup_singleton].
    intros x Hx Heq%list_elem_of_singleton. by subst x.
  - by apply chain_snoc.
  - intros y. rewrite last_snoc. intros [= <-].
    by apply (any_edge_deps _ _ _ _ Hget).
Qed.

Lemma detect_from_sound names cycles cycles' :
  detect_from skills names cycles = Some cycles' →
  (∀ c, c ∈ cycles → is_cycle skills c) →
  ∀ c, c ∈ cycles' → is_cycle skills c.
Proof.
  revert cycles. induction names as [|name names IH]; intros cycles;
    cbn [detect_from].
  - by intros [= <-].
  - destruct (dfs _ _ _ _ _) as [[v1 c1]|] eqn:Hrun; [|done]. simpl.
    intros Hloop Hvalid. apply (IH _ Hloop).
    destruct (dfs_sound _ _ _ _ _ _ _ Hrun) as (new & -> & _ & Hnew).
    intros c [Hc|Hc]%elem_of_app; [by apply Hvalid|].
    apply Hnew; [|done]. split_and!; [apply NoDup_nil_2|done|done].
Qed.
End dfs_cycles.

Section dfs_mutual.
Context (skills : registry) (A B : string).
Hypothesis HAB : any_edge skills A B.
Hypothesis HBA : any_edge skills B A.

Lemma through_app cycles new : through A B cycles → through A B (cycles ++ new).
Proof.
  intros (c & Hc & ? & ?). exists c. split; [|done]. apply elem_of_app. by left.
Qed.

Lemma dfs_extends fuel name path st st' :
  dfs fuel skills name path st = Some st' →
  through A B st.2 → through A B st'.2.
Proof.
  destruct st as [v c], st' as [v' c']. intros Hrun.
  destruct (dfs_sound _ _ _ _ _ _ _ _ Hrun) as (new & -> & _). simpl.
  apply through_app.
Qed.

Lemma dfs_names_preserves (J : dfs_state → Prop) rec names :
  (∀ name st st', rec name st = Some st' →
     (J st → J st') ∧ (through A B st.2 → through A B st'.2)) →
  ∀ st st', dfs_names rec names st = Some st' →
    (J st → J st') ∧ (through A B st.2 → through A B st'.2).
Proof.
  intros Hrec. induction names as [|d names IH]; intros st st';
    cbn [dfs_names].
  - by intros [= <-].
  - destruct (rec d st) as [st1|] eqn:Hcall; [|done]. simpl. intros Hloop.
    destruct (Hrec _ _ _ Hcall). destruct (IH _ _ Hloop). tauto.
Qed.

(** A loop in which every call keeps the invariant [J] and the call on
    [target] forces a cycle through [A] and [B]. *)
Lemma dfs_names_reaches (J : dfs_state → Prop) rec names target :
  (∀ name st st', rec name st = Some st' →
     (J st → J st') ∧ (through A B st.2 → through A B st'.2)) →
  (∀ st st', rec target st = Some st' → J st → through A B st'.2) →
  target ∈ names →
  ∀ st st', dfs_names rec names st = Some st' → J st → through A B st'.2.
Proof.
  intros Hrec Htarget. induction names as [|d names IH];
    [by intros ?%elem_of_nil|].
  intros Hin st st'. cbn [dfs_names].
  destruct (rec d st) as [st1|] eqn:Hcall; [|done]. simpl. intros Hloop HJ.
  destruct (Hrec _ _ _ Hcall) as [HJ1 Hmono1].
  apply elem_of_cons in Hin as [->|Hin].
  - eapply (dfs_names_preserves J); [done..|]. by eapply Htarget.
  - by eapply IH; [|done|apply HJ1].
Qed.

Lemma revisit_through path fuel st st' :
  A ∈ path ++ [B] →
  dfs fuel skills A (path ++ [B]) st = Some st' → through A B st'.2.
Proof.
  intros HA. destruct fuel as [|fuel]; [done|]. destruct st as [v c].
  rewrite dfs_on_path by done. intros [= <-]. simpl.
  exists (drop (index (path ++ [B]) A) (path ++ [B]) ++ [A]). split_and!.
  - apply elem_of_app. right. by apply list_elem_of_singleton.
  - apply elem_of_app. right. by apply list_elem_of_singleton.
  - apply elem_of_app. left. apply last_elem_of_drop; [|apply last_snoc].
    eapply lookup_lt_Some. by apply index_lookup.
Qed.

(** Once [B] has been entered below a path through [A], a cycle through
    both has been recorded. *)
Lemma dfs_mutual_inv fuel name path visited cycles visited' cycles' :
  dfs fuel skills name path (visited, cycles) = Some (visited', cycles') →
  A ∈ path →
  (B ∈ visited → through A B cycles) →
  (B ∈ visited' → through A B cycles') ∧ (name ∉ path → name ∈ visited').
Proof.
  revert name path visited cycles visited' cycles'.
  induction fuel as [|fuel IH];
    intros name path visited cycles visited' cycles' Hrun HA Hinv; [done|].
  destruct (decide (name ∈ path)) as [Hp|Hp].
  { rewrite dfs_on_path in Hrun by done. injection Hrun as <- <-.
    split; [|done]. intros HB. by apply through_app, Hinv. }
  destruct (decide (name ∈ visited)) as [Hv|Hv].
  { rewrite dfs_seen in Hrun by done. by injection Hrun as <- <-. }
  destruct (PyDict.get skills name) as [skill|] eqn:Hget.
  2:{ rewrite dfs_unregistered in Hrun by done. injection Hrun as <- <-.
      split; [|set_solver].
      intros [HB|Heq%elem_of_singleton]%elem_of_union; [by apply Hinv|].
      subst name. destruct HBA as (? & ? & ? & _). congruence. }
  destruct (dfs_sound _ _ _ _ _ _ _ _ Hrun) as (new & -> & Hsub & _).
  rewrite (dfs_enter _ _ _ _ _ _ skill) in Hrun by done.
  assert (A ∈ path ++ [name]) as HA' by (apply elem_of_app; by left).
  split.
  2:{ intros _. destruct (dfs_names_sound skills
                   (path_ok skills (path ++ [name])) _ _
                   (fun name' => dfs_sound skills fuel name' (path ++ [name]))
                   _ _ _ _ Hrun) as (_ & _ & Hsub' & _). set_solver. }
  intros HB. destruct (decide (name = B)) as [->|Hne].
  - apply (dfs_names_reaches (fun _ => True) _ _ A) in Hrun; [done| | | |done].
    + intros d st st' Hcall. split; [done|]. by eapply dfs_extends.
    + intros st st' Hcall _. by eapply revisit_through.
    + by apply (any_edge_deps _ _ _ _ Hget).
  - apply (dfs_names_preserves
             (fun st => B ∈ st.1 → through A B st.2)) in Hrun as [HJ _].
    + apply HJ; [|done]. simpl. intros HB'. apply Hinv. set_solver.
    + intros d [v c] [v' c'] Hcall. split; [|by eapply dfs_extends].
      simpl. intros HJ. by eapply IH.
Qed.

Lemma dfs_from_source fuel cycles visited' cycles' :
  dfs fuel skills A [] (∅, cycles) = Some (visited', cycles') →
  through A B cycles'.
Proof.
  destruct fuel as [|fuel]; [done|].
  destruct HAB as (skill & dep & Hget & Hdep & Hname & Hmem).
  assert (B ∈ registered_deps skills skill) as HB
    by (apply (any_edge_deps _ _ _ _ Hget); by exists skill, dep).
  rewrite (dfs_enter _ _ _ _ _ _ skill); [|by intros ?%elem_of_nil|set_solver|done].
  intros Hrun.
  assert (A ∈ [] ++ [A]) as HA1 by by apply list_elem_of_singleton.
  destruct (decide (A = B)) as [Heq|Hne].
  - apply (dfs_names_reaches (fun _ => True) _ _ B) in Hrun; [done| | |done..].
    + intros d st st' Hcall. split; [done|]. by eapply dfs_extends.
    + intros [v c] st' Hcall _.
      apply (revisit_through [] fuel (v, c)); congruence.
  - apply (dfs_names_reaches (fun st => B ∈ st.1 → through A B st.2) _ _ B)
      in Hrun; [done| | |done|].
    + intros d [v c] [v' c'] Hcall. split; [|by eapply dfs_extends].
      simpl. intros HJ.
      by destruct (dfs_mutual_inv _ _ _ _ _ _ _ Hcall HA1 HJ).
    + intros [v c] [v' c'] Hcall HJ. simpl in *.
      destruct (dfs_mutual_inv _ _ _ _ _ _ _ Hcall HA1 HJ) as [Hthrough Hin].
      apply Hthrough, Hin. intros ?%list_elem_of_singleton. congruence.
    + simpl. set_solver.
Qed.
End dfs_mutual.

Lemma detect_from_through skills A B names cycles cycles' :
  any_edge skills A B → any_edge skills B A →
  detect_from skills names cycles = Some cycles' →
  A ∈ names ∨ through A B cycles → through A B cycles'.
Proof.
  intros HAB HBA. revert cycles. induction names as [|name names IH];
    intros cycles; cbn [detect_from].
  - intros [= <-] [?%elem_of_nil|?]; done.
  - destruct (dfs _ _ _ _ _) as [[v1 c1]|] eqn:Hrun; [|done]. simpl.
    intros Hloop Hcase. apply (IH _ Hloop).
    destruct Hcase as [[->|Hin]%elem_of_cons|Hthrough].
    + right. by eapply dfs_from_source.
    + by left.
    + right. by apply (dfs_extends skills A B _ _ _ _ _ Hrun).
Qed.

(** C9: [detect_circular_dependencies] returns on every registry; each
    cycle it reports is a repeat-free stretch of the traversal path, from
    the first occurrence of the revisited skill to its repeat, along
    declared dependencies of any flags; and whenever [A] declares a
    dependency on [B] and [B] one on [A], some reported cycle contains
    both. *)
Theorem detect_circular_dependencies_reports (skills : registry) :
  ∃ cycles,
    detect_circular_dependencies skills = Some cycles ∧
    (∀ c, c ∈ cycles →
       ∃ x rest, c = x :: rest ++ [x] ∧ NoDup (x :: rest) ∧
                 chain (any_edge skills) c) ∧
    (∀ A B, declares skills A B → declares skills B A →
       ∃ c, c ∈ cycles ∧ A ∈ c ∧ B ∈ c).
Proof.
  unfold detect_circular_dependencies.
  destruct (detect_from_total skills (PyDict.keys skills) []) as [cycles Hrun].
  exists cycles. split_and!; [done| |].
  - apply (detect_from_sound _ _ _ _ Hrun). by intros c ?%elem_of_nil.
  - intros A B HAB HBA.
    assert (is_Some (PyDict.get skills A)) as HA
      by (destruct HAB as (skill & _ & ? & _); by exists skill).
    assert (is_Some (PyDict.get skills B)) as HB
      by (destruct HBA as (skill & _ & ? & _); by exists skill).
    apply (detect_from_through skills A B _ _ _
             (declares_any_edge _ _ _ HAB HB) (declares_any_edge _ _ _ HBA HA) Hrun).
    left. by apply PyDictFacts.elem_of_keys.
Qed.

Lemma detect_circular_dependencies_reports_witness :
  ∃ cycles,
    detect_circular_dependencies cycle_registry = Some cycles ∧
    ∃ c, c ∈ cycles ∧ "A" ∈ c ∧ "B" ∈ c.
Proof.
  destruct (detect_circular_dependencies_reports cycle_registry)
    as (cycles & Hrun & _ & Hmutual).
  exists cycles. split; [done|]. apply Hmutual.
  - exists (sample_skill "A" [sample_dep "B" false true] [sample_tool "a" ["run"]]),
      (sample_dep "B" false true).
    split_and!; [reflexivity| |reflexivity].
    apply list_elem_of_singleton. reflexivity.
  - exists (sample_skill "B" [sample_dep "A" false true] [sample_tool "b" ["run"]]),
      (sample_dep "A" false true).
    split_and!; [reflexivity| |reflexivity].
    apply list_elem_of_singleton. reflexivity.
Defined.

(** ** Validation: when a skill is valid *)

Section validity.
Context (environ : gmap string string) (skills : registry).

Lemma bind_nil_iff {A B : Type} (f : A → list B) (l : list A) :
  l ≫= f = [] ↔ ∀ x, x ∈ l → f x = [].
Proof.
  induction l as [|x l IH].
  - split; [by intros _ ? ?%elem_of_nil|done].
  - rewrite bind_cons. split.
    + intros [Hx Hl]%app_eq_nil y [->|Hy]%elem_of_cons; [done|]. by apply IH.
    + intros Hall. rewrite (Hall x) by (apply elem_of_cons; by left).
      apply IH. intros y Hy. apply Hall, elem_of_cons. by right.
Qed.

Lemma dep_errors_nil skill_name dep :
  dep_errors skills skill_name dep = [] ↔ is_Some (PyDict.get skills (dep_name dep)).
Proof.
  unfold dep_errors. rewrite <- PyDictFacts.mem_true.
  destruct (PyDict.mem skills (dep_name dep)); simpl; split; done.
Qed.

Lemma env_errors_nil env :
  env_errors environ env = [] ↔
  (env_required env = true → ∃ v, environ !! env_name env = Some v ∧ v ≠ "").
Proof.
  unfold env_errors. destruct (env_required env); [|split; done].
  destruct (truthy (environ !! env_name env)) eqn:Htr; simpl.
  - split; [|done]. intros _ _. by apply truthy_true.
  - split; [done|]. intros Hv. specialize (Hv eq_refl).
    apply truthy_true in Hv. congruence.
Qed.

Lemma tool_errors_nil skill_name tool :
  tool_errors skill_name tool = [] ↔ tool_name tool ≠ "" ∧ tool_category tool ≠ "".
Proof.
  unfold tool_errors. repeat case_decide; simpl; split; try done; by intros [? ?].
Qed.
End validity.

(** X1: [validate_skill] returns the empty list exactly for a registered
    skill all of whose skill dependencies are registered, all of whose
    required environment variables are set to a non-empty value, and all
    of whose tools have a name and a category. *)
Theorem validate_skill_valid_iff
    (environ : gmap string string) (skill_name : string) (skills : registry) :
  validate_skill environ skill_name skills = [] ↔
  ∃ skill,
    PyDict.get skills skill_name = Some skill ∧
    (∀ dep, dep ∈ deps_skills (meta_dependencies skill) →
       is_Some (PyDict.get skills (dep_name dep))) ∧
    (∀ env, env ∈ deps_environment (meta_dependencies skill) →
       env_required env = true →
       ∃ v, environ !! env_name env = Some v ∧ v ≠ "") ∧
    (∀ tool, tool ∈ meta_tools skill →
       tool_name tool ≠ "" ∧ tool_category tool ≠ "").
Proof.
  destruct (PyDict.get skills skill_name) as [skill|] eqn:Hget.
  - rewrite (validate_skill_found _ _ _ _ Hget). split.
    + intros [Hd [He Ht]%app_eq_nil]%app_eq_nil. exists skill. split_and!; [done|..].
      * intros dep Hin. eapply dep_errors_nil, bind_nil_iff; done.
      * intros env Hin. eapply env_errors_nil, bind_nil_iff; done.
      * intros tool Hin. eapply tool_errors_nil, bind_nil_iff; done.
    + intros (skill' & [= <-] & Hd & He & Ht).
      rewrite (proj2 (bind_nil_iff (dep_errors skills skill_name) _)),
        (proj2 (bind_nil_iff (env_errors environ) _)),
        (proj2 (bind_nil_iff (tool_errors skill_name) _)); [done|..].
      * intros tool Hin. by apply tool_errors_nil, Ht.
      * intros env Hin. by apply env_errors_nil, He.
      * intros dep Hin. by apply dep_errors_nil, Hd.
  - unfold validate_skill. rewrite Hget. split; [done|]. by intros (? & [=] & _).
Qed.

Lemma append_right_cancel (a b s : string) : a +:+ s = b +:+ s → a = b.
Proof.
  assert (∀ x y, String.list_ascii_of_string (x +:+ y) =
                 String.list_ascii_of_string x ++ String.list_ascii_of_string y)
    as Happ.
  { intros x y. induction x as [|c x IH]; simpl; [done|]. by rewrite IH. }
  intros Heq. apply (f_equal String.list_ascii_of_string) in Heq.
  rewrite !Happ in Heq. apply app_inv_tail in Heq.
  apply (f_equal String.string_of_list_ascii) in Heq.
  by rewrite !String.string_of_list_ascii_of_string in Heq.
Qed.

Lemma dep_message_elem_of (environ : gmap string string) (skills : registry)
    (skill_name : string) (skill : SkillMeta) (name : string) :
  PyDict.get skills skill_name = Some skill →
  "Missing dependency: '" +:+ name +:+ "' required by '" +:+ skill_name +:+ "'"
    ∈ validate_skill environ skill_name skills ↔
  ∃ dep, dep ∈ deps_skills (meta_dependencies skill) ∧ dep_name dep = name ∧
         PyDict.get skills name = None.
Proof.
  intros Hget. rewrite (validate_skill_found _ _ _ _ Hget).
  rewrite !elem_of_app, !list_elem_of_bind. split.
  - intros [(dep & Hin & Hdep)|[(env & Hin & _)|(tool & Hin & _)]].
    + exists dep. unfold dep_errors in Hin.
      destruct (PyDict.mem skills (dep_name dep)) eqn:Hmem; simpl in Hin;
        [by apply elem_of_nil in Hin|].
      apply list_elem_of_singleton in Hin.
      apply (inj (String.app _)), append_right_cancel in Hin. subst name.
      split_and!; [done..|]. by apply PyDictFacts.mem_false.
    + unfold env_errors in Hin.
      destruct (env_required env); [|by apply elem_of_nil in Hin].
      destruct (negb _); [|by apply elem_of_nil in Hin].
      apply list_elem_of_singleton in Hin. simpl in Hin. discriminate Hin.
    + unfold tool_errors in Hin.
      apply elem_of_app in Hin as [Hin|Hin]; case_decide;
        try (by apply elem_of_nil in Hin);
        apply list_elem_of_singleton in Hin; simpl in Hin; discriminate Hin.
  - intros (dep & Hin & <- & Hnone). left. exists dep. split; [|done].
    unfold dep_errors. apply PyDictFacts.mem_false in Hnone. rewrite Hnone.
    simpl. by apply list_elem_of_singleton.
Qed.

(** X2: for a dependency declared by a registered skill, [validate_skill]
    reports "Missing dependency: 'D' required by 'S'" exactly when [D] is
    not a key of the registry; the [required] and [auto_load] flags play
    no part. *)
Theorem validate_skill_missing_dependency
    (environ : gmap string string) (skills : registry)
    (skill_name : string) (skill : SkillMeta) (dep : SkillDependency) :
  PyDict.get skills skill_name = Some skill →
  dep ∈ deps_skills (meta_dependencies skill) →
  "Missing dependency: '" +:+ dep_name dep +:+ "' required by '"
     +:+ skill_name +:+ "'" ∈ validate_skill environ skill_name skills
  ↔ PyDict.get skills (dep_name dep) = None.
Proof.
  intros Hget Hin. rewrite (dep_message_elem_of _ _ _ _ _ Hget). split.
  - by intros (_ & _ & _ & ?).
  - intros Hnone. by exists dep.
Qed.

Lemma validate_skill_missing_dependency_witness :
  "Missing dependency: 'C' required by 'A'"
    ∈ validate_skill ∅ "A" dangling_registry
  ↔ PyDict.get dangling_registry "C" = None.
Proof.
  apply (validate_skill_missing_dependency ∅ dangling_registry "A"
           (sample_skill "A" [sample_dep "C" true false] [])
           (sample_dep "C" true false)).
  - reflexivity.
  - apply list_elem_of_singleton. reflexivity.
Defined.

(** ** Checking every skill *)

Section check_all.
Context (environ : gmap string string) (skills : registry).

Lemma check_all_loop_get (names : list string)
    (results : PyDict.dict (list string)) (n : string) :
  PyDict.get
    (fold_left
       (fun results skill_name =>
          let errors := validate_skill environ skill_name skills in
          match errors with
          | [] => results
          | _ => PyDict.set results skill_name errors
          end) names results) n =
  if decide (n ∈ names ∧ validate_skill environ n skills ≠ [])
  then Some (validate_skill environ n skills)
  else PyDict.get results n.
Proof.
  revert results. induction names as [|k names IH]; intros results;
    cbn [fold_left].
  - rewrite decide_False; [done|]. by intros [?%elem_of_nil _].
  - rewrite IH. destruct (decide (n ∈ names ∧ _)) as [[Hin Hne]|Hnot].
    + rewrite decide_True; [done|]. split; [|done]. apply elem_of_cons. by right.
    + destruct (decide (k = n)) as [->|Hkn].
      * destruct (validate_skill environ n skills) as [|e errs] eqn:Hv.
        -- rewrite decide_False; [done|]. by intros [_ ?].
        -- rewrite PyDictFacts.get_set_eq. rewrite decide_True; [done|].
           split; [apply elem_of_cons; by left|done].
      * rewrite decide_False.
        -- destruct (validate_skill environ k skills); [done|].
           by rewrite PyDictFacts.get_set_ne.
        -- intros [[?|?]%elem_of_cons ?]; [congruence|]. by apply Hnot.
Qed.

Lemma check_all_dependencies_get (n : string) :
  PyDict.get (check_all_dependencies environ skills) n =
  if decide (is_Some (PyDict.get skills n) ∧ validate_skill environ n skills ≠ [])
  then Some (validate_skill environ n skills)
  else None.
Proof.
  unfold check_all_dependencies. rewrite check_all_loop_get.
  destruct (decide (n ∈ PyDict.keys skills ∧ _)) as [[Hin Hne]|Hnot].
  - rewrite decide_True; [done|]. split; [|done].
    by apply PyDictFacts.elem_of_keys.
  - rewrite decide_False; [done|]. intros [Hreg Hne]. apply Hnot.
    split; [|done]. by apply PyDictFacts.elem_of_keys.
Qed.
End check_all.

(** X3: the result of [check_all_dependencies] maps a name to a list of
    errors exactly when the name is registered and [validate_skill]
    returns that list for it and the list is not empty; skills without
    errors get no entry. *)
Theorem check_all_dependencies_lookup
    (environ : gmap string string) (skills : registry)
    (n : string) (errors : list string) :
  PyDict.get (check_all_dependencies environ skills) n = Some errors ↔
  is_Some (PyDict.get skills n) ∧
  errors = validate_skill environ n skills ∧ errors ≠ [].
Proof.
  rewrite check_all_dependencies_get. case_decide as Hcase.
  - destruct Hcase as [Hreg Hne]. split.
    + intros [= <-]. done.
    + intros (_ & -> & _). done.
  - split; [done|]. intros (Hreg & -> & Hne). destruct Hcase. done.
Qed.

(** X4: [check_all_dependencies] returns the empty dictionary exactly when
    [validate_skill] returns no error for every registered skill. *)
Theorem check_all_dependencies_clean
    (environ : gmap string string) (skills : registry) :
  check_all_dependencies environ skills = [] ↔
  ∀ n, is_Some (PyDict.get skills n) → validate_skill environ n skills = [].
Proof.
  split.
  - intros Hnil n Hreg.
    pose proof (check_all_dependencies_get environ skills n) as Hget.
    rewrite Hnil in Hget. simpl in Hget. case_decide as Hcase; [done|].
    destruct (validate_skill environ n skills) eqn:Hv; [done|].
    destruct Hcase. split; done.
  - intros Hall.
    destruct (check_all_dependencies environ skills) as [|[k errs] rest] eqn:Hres;
      [done|].
    pose proof (check_all_dependencies_get environ skills k) as Hget.
    rewrite Hres in Hget. simpl in Hget. rewrite decide_True in Hget by done.
    case_decide as Hcase; [|done]. destruct Hcase as [Hreg Hne].
    by destruct Hne; apply Hall.
Qed.

(** ** Loading: the last source of a name wins *)




(** ** The cycle detector reports exactly the skills that lie on a cycle *)

Section chain_paths.
Context (R : relation string).

Lemma chain_rtc_first x l y : chain R (x :: l) → y ∈ x :: l → rtc R x y.
Proof.
  revert x y. induction l as [|a l IH]; intros x y Hchain Hin.
  - apply list_elem_of_singleton in Hin. by subst y.
  - destruct Hchain as [Hxa Hchain].
    apply elem_of_cons in Hin as [->|Hin]; [done|].
    eapply rtc_l; [done|]. by apply IH.
Qed.

Lemma chain_rtc_last l z y : chain R (l ++ [z]) → y ∈ l ++ [z] → rtc R y z.
Proof.
  revert y. induction l as [|a l IH]; intros y Hchain Hin.
  - apply list_elem_of_singleton in Hin. by subst y.
  - change ((a :: l) ++ [z]) with (a :: (l ++ [z])) in *.
    destruct (l ++ [z]) as [|b k] eqn:Hk; [by destruct l|].
    destruct Hchain as [Hab Hchain].
    apply elem_of_cons in Hin as [->|Hin].
    + eapply rtc_l; [done|]. apply IH; [done|]. apply elem_of_cons. by left.
    + by apply IH.
Qed.

Lemma tc_split_last x y : tc R x y → ∃ z, rtc R x z ∧ R z y.
Proof.
  induction 1 as [x y Hxy|x w y Hxw _ (z & Hwz & Hzy)].
  - by exists x.
  - exists z. split; [|done]. by eapply rtc_l.
Qed.
End chain_paths.

Section dfs_exact.
Context (skills : registry).

Lemma is_cycle_on_cycle c y :
  is_cycle skills c → y ∈ c → tc (any_edge skills) y y.
Proof.
  intros (x & rest & -> & _ & Hchain) Hin.
  assert (rtc (any_edge skills) x y) as Hxy by by eapply chain_rtc_first.
  assert (rtc (any_edge skills) y x) as Hyx.
  { apply (chain_rtc_last _ (x :: rest)); done. }
  assert (tc (any_edge skills) x x) as Hxx.
  { change (x :: rest ++ [x]) with (x :: (rest ++ [x])) in Hchain.
    destruct (rest ++ [x]) as [|h k] eqn:Hk; [by destruct rest|].
    destruct Hchain as [Hxh Hchain].
    eapply tc_rtc_r; [by apply tc_once|].
    rewrite <- Hk in Hchain. apply (chain_rtc_last _ rest); [done|].
    rewrite Hk. apply elem_of_cons. by left. }
  destruct (decide (y = x)) as [->|Hne]; [done|].
  apply rtc_tc in Hyx as [?|Hyx]; [done|].
  by eapply tc_rtc_r.
Qed.

Lemma has_cycle_app (A : string) (cycles new : list (list string)) :
  (∃ c, c ∈ cycles ∧ A ∈ c) → ∃ c, c ∈ cycles ++ new ∧ A ∈ c.
Proof. intros (c & ? & ?). exists c. split; [|done]. apply elem_of_app. by left. Qed.

Lemma dfs_has_cycle_mono (A : string) fuel name path st st' :
  dfs fuel skills name path st = Some st' →
  (∃ c, c ∈ st.2 ∧ A ∈ c) → ∃ c, c ∈ st'.2 ∧ A ∈ c.
Proof.
  destruct st as [v c], st' as [v' c']. intros Hrun.
  destruct (dfs_sound _ _ _ _ _ _ _ _ Hrun) as (new & -> & _). simpl.
  apply has_cycle_app.
Qed.

Lemma dfs_names_complete A path rec names :
  dfs_call_complete skills A path rec →
  ∀ st st',
    dfs_names rec names st = Some st' →
    dfs_progress skills A path st →
    dfs_progress skills A path st' ∧ st.1 ⊆ st'.1 ∧
    (∀ d, d ∈ names → d ∈ st'.1) ∧
    (A ∈ names → ∃ c, c ∈ st'.2 ∧ A ∈ c) ∧
    ((∃ c, c ∈ st.2 ∧ A ∈ c) → ∃ c, c ∈ st'.2 ∧ A ∈ c).
Proof.
  intros Hrec. induction names as [|d names IH]; intros st st';
    cbn [dfs_names].
  - intros [= <-] Hprog. split_and!; try done;
      first [by intros ? ?%elem_of_nil | by intros ?%elem_of_nil].
  - destruct (rec d st) as [st1|] eqn:Hcall; [|done]. simpl.
    intros Hloop Hprog.
    destruct (Hrec _ _ _ Hcall Hprog) as (Hprog1 & Hd & Hsub1 & HA1 & Hmono1).
    destruct (IH _ _ Hloop Hprog1) as (Hprog2 & Hsub2 & Hall & HA2 & Hmono2).
    split_and!; [done|set_solver| | |tauto].
    + intros d' [->|Hin]%elem_of_cons; [set_solver|by apply Hall].
    + intros [HdA|Hin]%elem_of_cons; [|by apply HA2].
      apply Hmono2, HA1. done.
Qed.

Lemma dfs_complete fuel A path :
  A ∈ path →
  dfs_call_complete skills A path (fun name => dfs fuel skills name path).
Proof.
  revert path. induction fuel as [|fuel IH];
    intros path HA name [v c] [v' c'] Hrun (Hpath & Hclosed & Hback); [done|].
  simpl in Hpath, Hclosed, Hback.
  destruct (decide (name ∈ path)) as [Hp|Hp].
  { rewrite dfs_on_path in Hrun by done. injection Hrun as <- <-.
    split_and!; simpl.
    - split_and!; simpl; [done|done|].
      intros b Hb Hbp Hedge. apply has_cycle_app. by eapply Hback.
    - by apply Hpath.
    - done.
    - intros ->. eexists. split.
      + apply elem_of_app. right. by apply list_elem_of_singleton.
      + apply elem_of_app. right. by apply list_elem_of_singleton.
    - apply has_cycle_app. }
  destruct (decide (name ∈ v)) as [Hv|Hv].
  { rewrite dfs_seen in Hrun by done. injection Hrun as <- <-.
    split_and!; simpl; [done|done|done| |done]. by intros ->. }
  destruct (PyDict.get skills name) as [skill|] eqn:Hget.
  2:{ rewrite dfs_unregistered in Hrun by done. injection Hrun as <- <-.
      assert (∀ w, ¬ any_edge skills name w) as Hno
        by (intros w (? & ? & ? & _); congruence).
      split_and!; simpl.
      - split_and!; simpl.
        + intros x Hx. apply elem_of_union. left. by apply Hpath.
        + intros x w [Hx|Hx%elem_of_singleton]%elem_of_union Hxp Hedge.
          * apply elem_of_union. left. by eapply Hclosed.
          * subst x. by destruct (Hno w).
        + intros b [Hb|Hb%elem_of_singleton]%elem_of_union Hbp Hedge.
          * by eapply Hback.
          * subst b. by destruct (Hno A).
      - set_solver.
      - set_solver.
      - by intros ->.
      - done. }
  rewrite (dfs_enter _ _ _ _ _ _ skill) in Hrun by done.
  assert (A ∈ path ++ [name]) as HA' by (apply elem_of_app; by left).
  destruct (dfs_names_complete A (path ++ [name]) _ _ (IH _ HA') _ _ Hrun)
    as ((Hpath' & Hclosed' & Hback') & Hsub & Hall & HAin & Hmono).
  { split_and!; simpl.
    - intros x [Hx|Hx%list_elem_of_singleton]%elem_of_app.
      + apply elem_of_union. left. by apply Hpath.
      + subst x. set_solver.
    - intros x w [Hx|Hx%elem_of_singleton]%elem_of_union Hxp Hedge.
      + apply elem_of_union. left. eapply Hclosed; [done| |done].
        intros ?. apply Hxp, elem_of_app. by left.
      + subst x. destruct Hxp. apply elem_of_app. right.
        by apply list_elem_of_singleton.
    - intros b [Hb|Hb%elem_of_singleton]%elem_of_union Hbp Hedge.
      + eapply Hback; [done| |done]. intros ?. apply Hbp, elem_of_app. by left.
      + subst b. destruct Hbp. apply elem_of_app. right.
        by apply list_elem_of_singleton. }
  simpl in *. split_and!; simpl.
  - split_and!; simpl.
    + intros x Hx. apply Hpath', elem_of_app. by left.
    + intros x w Hx Hxp Hedge. destruct (decide (x = name)) as [->|Hne].
      * apply Hall. by apply (any_edge_deps _ _ _ _ Hget).
      * eapply Hclosed'; [done| |done].
        intros [?|?%list_elem_of_singleton]%elem_of_app; done.
    + intros b Hb Hbp Hedge. destruct (decide (b = name)) as [->|Hne].
      * apply HAin. by apply (any_edge_deps _ _ _ _ Hget).
      * eapply Hback'; [done| |done].
        intros [?|?%list_elem_of_singleton]%elem_of_app; done.
  - set_solver.
  - set_solver.
  - by intros ->.
  - done.
Qed.

Lemma dfs_from_cycle_node fuel A cycles visited' cycles' :
  tc (any_edge skills) A A →
  dfs fuel skills A [] (∅, cycles) = Some (visited', cycles') →
  ∃ c, c ∈ cycles' ∧ A ∈ c.
Proof.
  intros Hcycle. destruct fuel as [|fuel]; [done|].
  destruct (tc_split_last _ _ _ Hcycle) as (b & Hreach & Hback_edge).
  assert (∃ skill, PyDict.get skills A = Some skill) as [skill Hget].
  { inversion Hcycle as [? ? (sk & ? & ? & _)|? ? ? (sk & ? & ? & _)]; by exists sk. }
  rewrite (dfs_enter _ _ _ _ _ _ skill);
    [|by intros ?%elem_of_nil|set_solver|done].
  assert (A ∈ [] ++ [A]) as HA1 by by apply list_elem_of_singleton.
  intros Hrun.
  destruct (dfs_names_complete A ([] ++ [A]) _ _ (dfs_complete fuel A _ HA1)
              _ _ Hrun)
    as ((Hpath' & Hclosed' & Hback') & Hsub & Hall & HAin & _).
  { split_and!; simpl.
    - intros x ?%list_elem_of_singleton. set_solver.
    - intros x w Hx Hxp. destruct Hxp. apply list_elem_of_singleton. set_solver.
    - intros x Hx Hxp. destruct Hxp. apply list_elem_of_singleton. set_solver. }
  simpl in *.
  assert (∀ x w, x ∈ visited' → any_edge skills x w → w ∈ visited') as Hfull.
  { intros x w Hx Hedge. destruct (decide (x = A)) as [->|Hne].
    - apply Hall. by apply (any_edge_deps _ _ _ _ Hget).
    - eapply Hclosed'; [done| |done]. by intros ?%list_elem_of_singleton. }
  assert (∀ x y, rtc (any_edge skills) x y → x ∈ visited' → y ∈ visited')
    as Hreachable.
  { induction 1 as [|x y z Hxy _ IHr]; [done|]. intros Hx. by eapply IHr, Hfull. }
  assert (b ∈ visited') as Hb by (apply (Hreachable A); [done|set_solver]).
  destruct (decide (b = A)) as [->|Hne].
  - apply HAin. by apply (any_edge_deps _ _ _ _ Hget).
  - eapply Hback'; [done| |done]. by intros ?%list_elem_of_singleton.
Qed.

Lemma detect_from_has_cycle A names cycles cycles' :
  tc (any_edge skills) A A →
  detect_from skills names cycles = Some cycles' →
  A ∈ names ∨ (∃ c, c ∈ cycles ∧ A ∈ c) → ∃ c, c ∈ cycles' ∧ A ∈ c.
Proof.
  intros Hcycle. revert cycles. induction names as [|name names IH];
    intros cycles; cbn [detect_from].
  - intros [= <-] [?%elem_of_nil|?]; done.
  - destruct (dfs _ _ _ _ _) as [[v1 c1]|] eqn:Hrun; [|done]. simpl.
    intros Hloop Hcase. apply (IH _ Hloop).
    destruct Hcase as [[->|Hin]%elem_of_cons|Hhas].
    + right. by eapply dfs_from_cycle_node.
    + by left.
    + right. by apply (dfs_has_cycle_mono A _ _ _ _ _ Hrun).
Qed.

Lemma detect_reports_exactly cycles x :
  detect_circular_dependencies skills = Some cycles →
  (∃ c, c ∈ cycles ∧ x ∈ c) ↔ tc (any_edge skills) x x.
Proof.
  unfold detect_circular_dependencies. intros Hrun. split.
  - intros (c & Hc & Hx). apply (is_cycle_on_cycle c); [|done].
    apply (detect_from_sound _ _ _ _ Hrun); [|done]. by intros ? ?%elem_of_nil.
  - intros Hcycle. apply (detect_from_has_cycle x _ _ _ Hcycle Hrun). left.
    apply PyDictFacts.elem_of_keys.
    inversion Hcycle as [? ? (sk & ? & ? & _)|? ? ? (sk & ? & ? & _)]; by exists sk.
Qed.
End dfs_exact.

(** X6: [detect_circular_dependencies] returns, and a skill occurs in
    some reported cycle exactly when it lies on a cycle of declared
    dependencies between registered skills: a skill that is on no cycle
    occurs in no report, and a skill that is on a cycle occurs in at
    least one. *)
Theorem detect_circular_dependencies_exact (skills : registry) :
  ∃ cycles,
    detect_circular_dependencies skills = Some cycles ∧
    ∀ x, (∃ c, c ∈ cycles ∧ x ∈ c) ↔ tc (any_edge skills) x x.
Proof.
  destruct (detect_from_total skills (PyDict.keys skills) []) as [cycles Hrun].
  exists cycles. split; [done|]. intros x. by apply detect_reports_exactly.
Qed.

(** X7: [detect_circular_dependencies] returns the empty list exactly when
    the declared dependencies between registered skills form no cycle. *)
Theorem detect_circular_dependencies_none_iff_acyclic (skills : registry) :
  detect_circular_dependencies skills = Some [] ↔ acyclic (any_edge skills).
Proof.
  split.
  - intros Hrun x Hcycle.
    apply (detect_reports_exactly skills _ x Hrun) in Hcycle as (c & Hc & _).
    by apply elem_of_nil in Hc.
  - intros Hacyclic.
    destruct (detect_from_total skills (PyDict.keys skills) []) as [cycles Hrun].
    unfold detect_circular_dependencies. rewrite Hrun. f_equal.
    destruct cycles as [|c cycles]; [done|].
    assert (is_cycle skills c) as (x & rest & -> & _).
    { apply (detect_from_sound _ _ _ _ Hrun); [by intros ? ?%elem_of_nil|].
      apply elem_of_cons. by left. }
    destruct (Hacyclic x).
    apply (detect_reports_exactly skills _ x Hrun).
    eexists. split; [apply elem_of_cons; by left|]. apply elem_of_cons. by left.
Qed.

(** ** The resolver on arbitrary registries *)

Section resolve_general.
Context (skills : registry).

Lemma placed_or_reported_app R o1 o2 m1 m2 :
  placed_or_reported skills R o1 m1 →
  placed_or_reported skills (R ∪ list_to_set o1) o2 m2 →
  placed_or_reported skills R (o1 ++ o2) (m1 ++ m2).
Proof.
  intros H1 H2 i s d Hi Hedge Hreg.
  apply lookup_app_Some in Hi as [Hi|[Hlen Hi]].
  - destruct (H1 i s d Hi Hedge Hreg) as [?|[(j & Hj & Hd)|Hmsg]].
    + by left.
    + right; left. exists j. split; [done|]. by apply lookup_app_l_Some.
    + right; right. apply elem_of_app. by left.
  - destruct (H2 _ s d Hi Hedge Hreg)
      as [[?|Hin]%elem_of_union|[(j & Hj & Hd)|Hmsg]].
    + by left.
    + apply elem_of_list_to_set, list_elem_of_lookup in Hin as [j Hj].
      right; left. exists j. split.
      * apply lookup_lt_Some in Hj. lia.
      * by apply lookup_app_l_Some.
    + right; left. exists (length o1 + j)%nat. split; [lia|].
      rewrite lookup_app_r by lia.
      by replace (length o1 + j - length o1)%nat with j by lia.
    + right; right. apply elem_of_app. by right.
Qed.

Lemma truthful_mono roots roots' U placed placed' msg :
  (∀ r, r ∈ roots → r ∈ roots') →
  (∀ e, e ∈ placed → e ∈ placed') →
  truthful skills roots U placed msg → truthful skills roots' U placed' msg.
Proof.
  intros Hroots Hplaced [(e & -> & (r & Hr & Hreach) & Hcase)|(e & -> & Hnone & r & Hr & Hreach)].
  - left. exists e. split_and!; [done|by exists r; split; [apply Hroots|]|].
    destruct Hcase as [?|[? ?]]; [by left|right]. split; [by apply Hplaced|done].
  - right. exists e. split_and!; [done..|]. exists r. split; [by apply Hroots|done].
Qed.

Lemma resolve_names_general rec names :
  resolve_call_general skills rec →
  ∀ order0 missing0 R U order missing R' U',
    resolve_names rec names order0 missing0 R U = Some (order, missing, R', U') →
    (∀ d u, d ∈ names → u ∈ U → tc (ordering_edge skills) u d) →
    (∀ x, x ∈ R ∪ U → is_Some (PyDict.get skills x)) →
    ∃ placed new,
      order = order0 ++ placed ∧ missing = missing0 ++ new ∧ U' = U ∧
      R' = R ∪ list_to_set placed ∧ NoDup placed ∧
      (∀ x, x ∈ placed →
         (x ∉ R) ∧ (x ∉ U) ∧ is_Some (PyDict.get skills x) ∧
         ∃ d, d ∈ names ∧ rtc (ordering_edge skills) d x) ∧
      (∀ d, d ∈ names → is_Some (PyDict.get skills d) →
         d ∈ R' ∨ "Circular dependency detected: " +:+ d ∈ new) ∧
      (∀ d, d ∈ names → PyDict.get skills d = None →
         "Skill not found: " +:+ d ∈ new) ∧
      (∀ msg, msg ∈ new → truthful skills names U placed msg) ∧
      (∀ s d, s ∈ placed → ordering_edge skills s d →
         PyDict.get skills d = None → "Skill not found: " +:+ d ∈ new) ∧
      placed_or_reported skills R placed new.
Proof.
  intros Hrec. induction names as [|d names IH];
    intros order0 missing0 R U order missing R' U'; cbn [resolve_names].
  - intros [= <- <- <- <-] _ _. exists [], []. rewrite !app_nil_r.
    split_and!; try done.
    + set_solver.
    + apply NoDup_nil_2.
    + by intros ? ?%elem_of_nil.
    + by intros ? ?%elem_of_nil.
    + by intros ? ?%elem_of_nil.
    + by intros ? ?%elem_of_nil.
    + by intros ? ? ?%elem_of_nil.
  - destruct (rec d R U) as [[[[o1 m1] R1] U1]|] eqn:Hcall; [|done]. simpl.
    intros Hloop Hstack Hregd.
    destruct (Hrec _ _ _ _ _ _ _ Hcall)
      as (-> & -> & Hnd1 & Hfresh1 & _ & Hd & Hdnone & Htruth1 & Hnf1 & Hord1);
      [by intros u Hu; apply Hstack; [apply elem_of_cons; left|]|done|].
    destruct (IH _ _ _ _ _ _ _ _ Hloop)
      as (o2 & m2 & -> & -> & -> & -> & Hnd2 & Hfresh2 & Hrest & Hrestnone
          & Htruth2 & Hnf2 & Hord2).
    { intros d' u Hd' Hu. apply Hstack; [|done]. apply elem_of_cons. by right. }
    { intros x [[Hx|Hx%elem_of_list_to_set]%elem_of_union|Hx]%elem_of_union.
      - apply Hregd. set_solver.
      - by destruct (Hfresh1 x Hx) as (_ & _ & ? & _).
      - apply Hregd. set_solver. }
    exists (o1 ++ o2), (m1 ++ m2). rewrite !app_assoc. split_and!; try done.
    + set_solver.
    + apply NoDup_app. split; [done|]. split; [|done].
      intros x Hx1 Hx2. destruct (Hfresh2 x Hx2) as (Hnot & _). set_solver.
    + intros x [Hx|Hx]%elem_of_app.
      * destruct (Hfresh1 x Hx) as (? & ? & ? & ?). split_and!; try done.
        exists d. split; [apply elem_of_cons; by left|done].
      * destruct (Hfresh2 x Hx) as (Hnot & ? & ? & d' & ? & ?).
        split_and!; try done; [set_solver|].
        exists d'. split; [apply elem_of_cons; by right|done].
    + intros d' [->|Hd']%elem_of_cons Hreg.
      * destruct (Hd Hreg) as [?|?]; [left; set_solver|right].
        apply elem_of_app. by left.
      * destruct (Hrest d' Hd' Hreg) as [?|?]; [left; set_solver|right].
        apply elem_of_app. by right.
    + intros d' [->|Hd']%elem_of_cons Hnone.
      * apply elem_of_app. left. by apply Hdnone.
      * apply elem_of_app. right. by apply Hrestnone.
    + intros msg [Hm|Hm]%elem_of_app.
      * apply (truthful_mono [d] _ _ o1); [| |by apply Htruth1].
        -- intros r ?%list_elem_of_singleton. subst r. apply elem_of_cons. by left.
        -- intros e ?. apply elem_of_app. by left.
      * apply (truthful_mono names _ _ o2); [| |by apply Htruth2].
        -- intros r ?. apply elem_of_cons. by right.
        -- intros e ?. apply elem_of_app. by right.
    + intros s e [Hs|Hs]%elem_of_app Hedge Hnone.
      * apply elem_of_app. left. by eapply Hnf1.
      * apply elem_of_app. right. by eapply Hnf2.
    + by apply placed_or_reported_app.
Qed.
End resolve_general.

Section resolve_general_calls.
Context (skills : registry).

Ltac close_leaf :=
  first [ done | set_solver | apply NoDup_nil_2
        | by intros ? ?%elem_of_nil | by intros ? ? ?%elem_of_nil
        | by intros [? ?] ].

Lemma resolve_general fuel :
  resolve_call_general skills (resolve_skill_dependencies_fuel fuel skills).
Proof.
  induction fuel as [|fuel IH];
    intros name R U order missing R' U' Hrun Hstack Hregd; [done|].
  assert (∀ n : string, n ∈ [n]) as Hself
    by (intros n; by apply list_elem_of_singleton).
  destruct (decide (name ∈ U)) as [Hu|Hu].
  { rewrite resolve_circular in Hrun by done. injection Hrun as <- <- <- <-.
    split_and!; try close_leaf.
    - intros Hnone. destruct (Hregd name) as [? ?]; [set_solver|congruence].
    - intros msg ->%list_elem_of_singleton. left. exists name.
      split_and!; [done| |by left]. by exists name. }
  destruct (decide (name ∈ R)) as [Hr|Hr].
  { rewrite resolve_already in Hrun by done. injection Hrun as <- <- <- <-.
    split_and!; try close_leaf.
    intros Hnone. destruct (Hregd name) as [? ?]; [set_solver|congruence]. }
  destruct (PyDict.get skills name) as [skill|] eqn:Hget.
  2:{ rewrite resolve_not_found in Hrun by done. injection Hrun as <- <- <- <-.
      split_and!; try close_leaf.
      intros msg ->%list_elem_of_singleton. right. exists name.
      split_and!; [done..|]. by exists name. }
  rewrite (resolve_enter _ _ _ _ _ skill) in Hrun by done.
  destruct (resolve_names _ _ _ _ _ _) as [[[[o m] R1] U1]|] eqn:Hloop; [|done].
  simpl in Hrun. injection Hrun as <- <- <- <-.
  destruct (resolve_names_general skills _ _ IH _ _ _ _ _ _ _ _ Hloop)
    as (placed & new & Ho & Hm & -> & -> & Hnd & Hfresh & Hdeps & Hdepsnone
        & Htruth & Hnf & Hord).
  { intros d u Hd Hin. apply (ordering_edge_deps _ _ _ _ Hget) in Hd.
    apply elem_of_union in Hin as [Hin|Hin%elem_of_singleton].
    - eapply tc_r; [by apply Hstack|done].
    - subst u. by apply tc_once. }
  { intros x Hx.
    destruct (decide (x = name)) as [->|Hne]; [by exists skill|].
    apply Hregd. set_solver. }
  simpl in Ho, Hm. subst o m.
  assert (name ∉ placed) as Hfresh_name.
  { intros Hin. destruct (Hfresh name Hin) as (_ & Hnot & _). set_solver. }
  assert (∀ x, x ∈ placed → tc (ordering_edge skills) name x) as Hreach.
  { intros x Hx. destruct (Hfresh x Hx) as (_ & _ & _ & d & Hd & Hrtc).
    eapply tc_rtc_r; [|done].
    apply tc_once. by apply (ordering_edge_deps _ _ _ _ Hget). }
  split_and!.
  - set_solver.
  - set_solver.
  - apply NoDup_app. split; [done|]. split.
    + intros x Hx Heq%list_elem_of_singleton. by subst x.
    + apply NoDup_singleton.
  - intros x [Hx|Heq%list_elem_of_singleton]%elem_of_app.
    + destruct (Hfresh x Hx) as (? & ? & ? & ?). split_and!; try done.
      * set_solver.
      * by apply tc_rtc, Hreach.
    + subst x. split_and!; try done; by exists skill.
  - intros _ _ _. apply last_snoc.
  - intros _. left. set_solver.
  - intros Hnone. congruence.
  - intros msg Hmsg.
    destruct (Htruth msg Hmsg)
      as [(e & -> & (r & Hrt & Hre) & Hcase)|(e & -> & Hnone & r & Hrt & Hre)].
    + assert (tc (ordering_edge skills) name e) as Hne.
      { eapply tc_rtc_r; [|done].
        apply tc_once. by apply (ordering_edge_deps _ _ _ _ Hget). }
      left. exists e. split_and!; [done| |].
      * exists name. split; [done|by apply tc_rtc].
      * destruct Hcase as [[?|Heq%elem_of_singleton]%elem_of_union|[Hin Hcyc]].
        -- by left.
        -- subst e. right. split; [|done]. apply elem_of_app. right.
           by apply list_elem_of_singleton.
        -- right. split; [|done]. apply elem_of_app. by left.
    + right. exists e. split_and!; [done..|].
      exists name. split; [done|].
      eapply rtc_l; [|done]. by apply (ordering_edge_deps _ _ _ _ Hget).
  - intros s d [Hs|Heq%list_elem_of_singleton]%elem_of_app Hedge Hnone.
    + by eapply Hnf.
    + subst s. apply Hdepsnone; [|done]. by apply (ordering_edge_deps _ _ _ _ Hget).
  - intros i s d Hi Hedge Hreg.
    apply lookup_app_Some in Hi as [Hi|[Hlen Hi]].
    + destruct (Hord i s d Hi Hedge Hreg) as [?|[(j & Hj & Hd)|?]].
      * by left.
      * right; left. exists j. split; [done|]. by apply lookup_app_l_Some.
      * by right; right.
    + apply list_lookup_singleton_Some in Hi as [Hi <-].
      assert (d ∈ ordering_deps skill) as Hd
        by by apply (ordering_edge_deps _ _ _ _ Hget).
      destruct (Hdeps d Hd Hreg) as [[?|Hin]%elem_of_union|?].
      * by left.
      * apply elem_of_list_to_set, list_elem_of_lookup in Hin as [j Hj].
        right; left. exists j. split.
        -- apply lookup_lt_Some in Hj. lia.
        -- by apply lookup_app_l_Some.
      * by right; right.
Qed.
End resolve_general_calls.

Section resolve_runs.
Context (skills : registry).

Lemma circular_message_inj a b :
  "Circular dependency detected: " +:+ a = "Circular dependency detected: " +:+ b →
  a = b.
Proof. apply (inj (String.app _)). Qed.

Lemma not_found_message_inj a b :
  "Skill not found: " +:+ a = "Skill not found: " +:+ b → a = b.
Proof. apply (inj (String.app _)). Qed.

Lemma circular_not_not_found a b :
  "Circular dependency detected: " +:+ a ≠ "Skill not found: " +:+ b.
Proof. simpl. discriminate. Qed.

Lemma ordering_edge_source s d :
  ordering_edge skills s d → is_Some (PyDict.get skills s).
Proof. intros (skill & _ & ? & _). by exists skill. Qed.

Lemma tc_ordering_edge_source a b :
  tc (ordering_edge skills) a b → is_Some (PyDict.get skills a).
Proof. destruct 1; by eapply ordering_edge_source. Qed.

(** The facts a public call inherits from its traversal. *)
Lemma resolve_run_facts name order missing :
  resolve_skill_dependencies name skills = Some (order, missing) →
  NoDup order ∧
  (∀ x, x ∈ order →
     is_Some (PyDict.get skills x) ∧ rtc (ordering_edge skills) name x) ∧
  (is_Some (PyDict.get skills name) → last order = Some name) ∧
  (is_Some (PyDict.get skills name) →
     name ∈ order ∨ "Circular dependency detected: " +:+ name ∈ missing) ∧
  (PyDict.get skills name = None → "Skill not found: " +:+ name ∈ missing) ∧
  (∀ msg, msg ∈ missing → truthful skills [name] ∅ order msg) ∧
  (∀ s d, s ∈ order → ordering_edge skills s d → PyDict.get skills d = None →
     "Skill not found: " +:+ d ∈ missing) ∧
  placed_or_reported skills ∅ order missing.
Proof.
  unfold resolve_skill_dependencies.
  destruct (resolve_skill_dependencies_fuel _ _ _ _ _)
    as [[[[o m] R'] U']|] eqn:Hrun; [|done].
  simpl. intros [= -> ->].
  destruct (resolve_general skills _ _ _ _ _ _ _ _ Hrun)
    as (_ & HR & Hnd & Hfresh & Hlast & Hname & Hnone & Htruth & Hnf & Hord);
    [by intros ? ?%not_elem_of_empty|set_solver|].
  split_and!; try done.
  - intros x Hx. by destruct (Hfresh x Hx) as (_ & _ & ? & ?).
  - intros Hreg. apply Hlast; [done|set_solver..].
  - intros Hreg. destruct (Hname Hreg) as [?|?]; [left; set_solver|by right].
Qed.

Section facts.
Context (name : string) (order missing : list string).
Hypothesis Hrun : resolve_skill_dependencies name skills = Some (order, missing).

Lemma run_circular_message d :
  "Circular dependency detected: " +:+ d ∈ missing →
  d ∈ order ∧ rtc (ordering_edge skills) name d ∧ tc (ordering_edge skills) d d.
Proof.
  destruct (resolve_run_facts _ _ _ Hrun) as (_ & _ & _ & _ & _ & Htruth & _).
  intros Hmsg.
  destruct (Htruth _ Hmsg)
    as [(e & Heq & (r & Hr & Hre) & Hcase)|(e & Heq & _)].
  - apply circular_message_inj in Heq. subst e.
    apply list_elem_of_singleton in Hr. subst r.
    destruct Hcase as [?%not_elem_of_empty|[? ?]]; done.
  - by apply circular_not_not_found in Heq.
Qed.

Lemma run_not_found_message d :
  "Skill not found: " +:+ d ∈ missing →
  PyDict.get skills d = None ∧ rtc (ordering_edge skills) name d.
Proof.
  destruct (resolve_run_facts _ _ _ Hrun) as (_ & _ & _ & _ & _ & Htruth & _).
  intros Hmsg.
  destruct (Htruth _ Hmsg)
    as [(e & Heq & _)|(e & Heq & Hnone & r & Hr & Hre)].
  - symmetry in Heq. by apply circular_not_not_found in Heq.
  - apply not_found_message_inj in Heq. subst e.
    apply list_elem_of_singleton in Hr. by subst r.
Qed.

Lemma run_order_complete x :
  is_Some (PyDict.get skills x) → rtc (ordering_edge skills) name x → x ∈ order.
Proof.
  destruct (resolve_run_facts _ _ _ Hrun)
    as (_ & _ & _ & Hname & _ & _ & _ & Hord).
  intros Hreg Hreach. revert x Hreach Hreg.
  apply (rtc_ind_r (fun x => is_Some (PyDict.get skills x) → x ∈ order)).
  - intros Hreg. destruct (Hname Hreg) as [?|Hmsg]; [done|].
    by apply run_circular_message in Hmsg as (? & _).
  - intros y z Hy Hedge IH Hreg.
    assert (y ∈ order) as Hyo by (apply IH; by eapply ordering_edge_source).
    apply list_elem_of_lookup in Hyo as [i Hi].
    destruct (Hord i y z Hi Hedge Hreg)
      as [?%not_elem_of_empty|[(j & _ & Hj)|Hmsg]]; [done| |].
    + apply list_elem_of_lookup. eauto.
    + by apply run_circular_message in Hmsg as (? & _).
Qed.

Lemma run_not_found_complete d :
  PyDict.get skills d = None → rtc (ordering_edge skills) name d →
  "Skill not found: " +:+ d ∈ missing.
Proof.
  destruct (resolve_run_facts _ _ _ Hrun)
    as (_ & _ & _ & _ & Hnone & _ & Hnf & _).
  intros Hd Hreach. revert Hd.
  destruct (rtc_inv_r _ _ Hreach) as [<-|(y & Hy & Hedge)]; [done|].
  intros Hd. apply (Hnf y d); [|done..].
  apply run_order_complete; [by eapply ordering_edge_source|done].
Qed.

Lemma run_circular_decide :
  (∃ d, "Circular dependency detected: " +:+ d ∈ missing) ∨
  (∀ d, "Circular dependency detected: " +:+ d ∉ missing).
Proof.
  destruct (resolve_run_facts _ _ _ Hrun) as (_ & _ & _ & _ & _ & Htruth & _).
  clear Hrun. induction missing as [|msg rest IH].
  - right. by intros d ?%elem_of_nil.
  - destruct (Htruth msg) as [(e & -> & _)|(e & -> & _)];
      [apply elem_of_cons; by left| |].
    + left. exists e. apply elem_of_cons. by left.
    + destruct IH as [(d & Hd)|Hnone].
      * intros m Hm. apply Htruth, elem_of_cons. by right.
      * left. exists d. apply elem_of_cons. by right.
      * right. intros d [Heq|Hin]%elem_of_cons; [|by apply (Hnone d)].
        by apply circular_not_not_found in Heq.
Qed.

Lemma run_topological :
  (∀ d, "Circular dependency detected: " +:+ d ∉ missing) →
  ∀ a b, tc (ordering_edge skills) a b → is_Some (PyDict.get skills b) →
    ∀ i, order !! i = Some a → ∃ j, (j < i)%nat ∧ order !! j = Some b.
Proof.
  destruct (resolve_run_facts _ _ _ Hrun) as (_ & _ & _ & _ & _ & _ & _ & Hord).
  intros Hnone a b Htc. induction Htc as [a b Hab|a z b Haz Hzb IH];
    intros Hreg i Hi.
  - destruct (Hord i a b Hi Hab Hreg)
      as [?%not_elem_of_empty|[?|Hmsg]]; [done|done|].
    by destruct (Hnone b).
  - assert (is_Some (PyDict.get skills z)) as Hz
      by by eapply tc_ordering_edge_source.
    destruct (Hord i a z Hi Haz Hz)
      as [?%not_elem_of_empty|[(j & Hj & Hjz)|Hmsg]]; [done| |].
    + destruct (IH Hreg j Hjz) as (k & Hk & Hkb). exists k. split; [lia|done].
    + by destruct (Hnone z).
Qed.

Lemma run_cycle_reported x :
  rtc (ordering_edge skills) name x → tc (ordering_edge skills) x x →
  ∃ d, "Circular dependency detected: " +:+ d ∈ missing.
Proof.
  intros Hreach Hcycle.
  destruct run_circular_decide as [?|Hnone]; [done|].
  destruct (resolve_run_facts _ _ _ Hrun) as (Hnd & _).
  assert (is_Some (PyDict.get skills x)) as Hreg
    by by eapply tc_ordering_edge_source.
  pose proof (run_order_complete x Hreg Hreach) as Hx.
  apply list_elem_of_lookup in Hx as [i Hi].
  destruct (run_topological Hnone x x Hcycle Hreg i Hi) as (j & Hj & Hjx).
  pose proof (NoDup_lookup _ _ _ _ Hnd Hi Hjx). lia.
Qed.
End facts.
End resolve_runs.

(** X8: on every registry, cyclic or not, the order returned by
    [resolve_skill_dependencies] has no duplicates and consists of
    exactly the registered skills reachable from the requested name
    through required or auto-load dependencies; when the requested name
    is registered it is the last element. *)
Theorem resolve_order_is_reachable_set (skills : registry) (name : string) :
  ∃ order missing,
    resolve_skill_dependencies name skills = Some (order, missing) ∧
    NoDup order ∧
    (∀ x, x ∈ order ↔
          is_Some (PyDict.get skills x) ∧ rtc (ordering_edge skills) name x) ∧
    (is_Some (PyDict.get skills name) → last order = Some name).
Proof.
  destruct (resolve_skill_dependencies_total skills name)
    as (order & missing & _ & _ & Hrun).
  exists order, missing. split; [done|].
  destruct (resolve_run_facts skills _ _ _ Hrun) as (Hnd & Hin & Hlast & _).
  split_and!; [done| |done].
  intros x. split; [apply Hin|].
  intros [Hreg Hreach]. by eapply run_order_complete.
Qed.

(** X9: the missing list of [resolve_skill_dependencies] contains
    "Skill not found: D" exactly for the unregistered names [D] that are
    the requested name itself or are reached from it through required or
    auto-load dependencies. *)
Theorem resolve_not_found_messages (skills : registry) (name : string) :
  ∃ order missing,
    resolve_skill_dependencies name skills = Some (order, missing) ∧
    ∀ d, "Skill not found: " +:+ d ∈ missing ↔
         PyDict.get skills d = None ∧ rtc (ordering_edge skills) name d.
Proof.
  destruct (resolve_skill_dependencies_total skills name)
    as (order & missing & _ & _ & Hrun).
  exists order, missing. split; [done|]. intros d. split.
  - by eapply run_not_found_message.
  - intros [Hnone Hreach]. by eapply run_not_found_complete.
Qed.

(** X10: every "Circular dependency detected: D" in the missing list
    names a registered skill [D] that is reachable from the requested
    name and lies on a cycle of required or auto-load dependencies; and
    such a message is present exactly when some skill reachable from the
    requested name lies on such a cycle. *)
Theorem resolve_circular_messages (skills : registry) (name : string) :
  ∃ order missing,
    resolve_skill_dependencies name skills = Some (order, missing) ∧
    (∀ d, "Circular dependency detected: " +:+ d ∈ missing →
          is_Some (PyDict.get skills d) ∧
          rtc (ordering_edge skills) name d ∧
          tc (ordering_edge skills) d d) ∧
    ((∃ d, "Circular dependency detected: " +:+ d ∈ missing) ↔
     ∃ x, rtc (ordering_edge skills) name x ∧ tc (ordering_edge skills) x x).
Proof.
  destruct (resolve_skill_dependencies_total skills name)
    as (order & missing & _ & _ & Hrun).
  exists order, missing. split; [done|].
  assert (∀ d, "Circular dependency detected: " +:+ d ∈ missing →
            is_Some (PyDict.get skills d) ∧
            rtc (ordering_edge skills) name d ∧
            tc (ordering_edge skills) d d) as Hsound.
  { intros d Hmsg.
    destruct (run_circular_message skills _ _ _ Hrun d Hmsg) as (_ & ? & Hcyc).
    split_and!; [|done..]. by eapply tc_ordering_edge_source. }
  split; [done|]. split.
  - intros (d & Hmsg). exists d. by destruct (Hsound d Hmsg) as (_ & ? & ?).
  - intros (x & Hreach & Hcyc). by eapply run_cycle_reported.
Qed.

(** X11: [resolve_skill_dependencies] returns an empty missing list
    exactly when every name reachable from the requested name through
    required or auto-load dependencies is registered and none of them
    lies on a cycle of such dependencies. *)
Theorem resolve_missing_empty_iff (skills : registry) (name : string) :
  ∃ order missing,
    resolve_skill_dependencies name skills = Some (order, missing) ∧
    (missing = [] ↔
     (∀ d, rtc (ordering_edge skills) name d → is_Some (PyDict.get skills d)) ∧
     (∀ x, rtc (ordering_edge skills) name x → ¬ tc (ordering_edge skills) x x)).
Proof.
  destruct (resolve_skill_dependencies_total skills name)
    as (order & missing & _ & _ & Hrun).
  exists order, missing. split; [done|]. split.
  - intros Hnil. split.
    + intros d Hreach.
      destruct (PyDict.get skills d) eqn:Hget; [done|].
      pose proof (run_not_found_complete skills _ _ _ Hrun d Hget Hreach) as Hin.
      rewrite Hnil in Hin. by apply elem_of_nil in Hin.
    + intros x Hreach Hcyc.
      destruct (run_cycle_reported skills _ _ _ Hrun x Hreach Hcyc) as (d & Hin).
      rewrite Hnil in Hin. by apply elem_of_nil in Hin.
  - intros [Hreg Hacyc].
    destruct missing as [|msg rest] eqn:Hmissing; [done|]. exfalso.
    destruct (resolve_run_facts skills _ _ _ Hrun)
      as (_ & _ & _ & _ & _ & Htruth & _).
    destruct (Htruth msg) as [(e & -> & _)|(e & -> & _)];
      [apply elem_of_cons; by left| |].
    + destruct (run_circular_message skills _ _ _ Hrun e) as (_ & Hreach & Hcyc);
        [apply elem_of_cons; by left|].
      by apply (Hacyc e).
    + destruct (run_not_found_message skills _ _ _ Hrun e) as (Hnone & Hreach);
        [apply elem_of_cons; by left|].
      destruct (Hreg e Hreach) as [? ?]. congruence.
Qed.

(** ** The tool manifest: what the index points to *)

Section manifest_entries.
Import PyDictFacts.

Lemma manifest_loop_skill tools manifest :
  manifest_skill (fold_left manifest_add tools manifest) = manifest_skill manifest.
Proof.
  revert manifest. induction tools as [|tool tools IH]; intros manifest; simpl;
    [done|]. by rewrite IH.
Qed.

Lemma manifest_loop_entry tools manifest key td :
  PyDict.get (manifest_tool_index (fold_left manifest_add tools manifest)) key
    = Some td →
  PyDict.get (manifest_tool_index manifest) key = Some td ∨
  ∃ tool, tool ∈ tools ∧ key ∈ tool_keys tool ∧ td = tool_def tool.
Proof.
  induction tools as [|tool tools IH] using rev_ind; [by left|].
  rewrite manifest_loop_snoc, manifest_add_get.
  destruct (decide (key ∈ tool_keys tool)) as [Hkey|Hkey].
  - intros [= <-]. right. exists tool. split_and!; [|done..].
    apply elem_of_app. right. by apply list_elem_of_singleton.
  - intros [?|(t & Hin & ? & ?)]%IH; [by left|]. right. exists t.
    split_and!; [|done..]. apply elem_of_app. by left.
Qed.
End manifest_entries.

(** X12: the manifest returned by [generate_tool_manifest] carries the
    requested skill name, lists the tools of [get_tools_for_skill] in the
    same order with every field unchanged, and every entry of its
    [tool_index] is one of the listed tools, stored under that tool's name
    or one of its aliases. *)
Theorem tool_index_points_to_listed_tools
    (skill_name : string) (skills : registry) :
  ∃ tools manifest,
    get_tools_for_skill skill_name skills = Some tools ∧
    generate_tool_manifest skill_name skills = Some manifest ∧
    manifest_skill manifest = skill_name ∧
    manifest_tools manifest = tools ∧
    ∀ key td,
      PyDict.get (manifest_tool_index manifest) key = Some td →
      td ∈ manifest_tools manifest ∧
      (key = tool_name td ∨ key ∈ tool_aliases td).
Proof.
  destruct (get_tools_for_skill_total skills skill_name)
    as (resolved & tools & _ & Htools).
  exists tools. unfold generate_tool_manifest. rewrite Htools. simpl.
  eexists. split; [done|]. split; [done|].
  assert (manifest_tools
            (fold_left manifest_add tools
               {| manifest_skill := skill_name; manifest_tools := [];
                  manifest_tool_index := [] |}) = tools) as Hlisted.
  { rewrite manifest_loop_tools. simpl. rewrite <- (map_id tools) at 2.
    apply map_ext. intros tool. apply tool_def_id. }
  split_and!; [by rewrite manifest_loop_skill|done|].
  intros key td [Hget|(tool & Hin & Hkey & ->)]%manifest_loop_entry;
    [discriminate Hget|].
  rewrite Hlisted, tool_def_id. split; [done|].
  unfold tool_keys in Hkey. apply elem_of_cons in Hkey as [->|Hkey]; [by left|by right].
Qed.

(** ** Resolution and tool aggregation together *)

Lemma auto_edge_ordering_edge (skills : registry) (s d : string) :
  auto_edge skills s d → ordering_edge skills s d.
Proof.
  intros (skill & dep & Hget & Hin & Hname & Hauto).
  exists skill, dep. split_and!; [done..|]. rewrite Hauto. apply orb_true_r.
Qed.

(** X13: every tool returned by [get_tools_for_skill] for a name is a tool
    of a skill that [resolve_skill_dependencies] places in the load order
    for the same name: auto-load edges are among the edges the resolver
    follows. *)
Theorem tools_come_from_resolved_skills (skills : registry) (name : string) :
  ∃ order missing tools,
    resolve_skill_dependencies name skills = Some (order, missing) ∧
    get_tools_for_skill name skills = Some tools ∧
    ∀ tool, tool ∈ tools →
      ∃ x skill, x ∈ order ∧ PyDict.get skills x = Some skill ∧
                 tool ∈ meta_tools skill.
Proof.
  destruct (resolve_skill_dependencies_total skills name)
    as (order & missing & _ & _ & Hrun).
  destruct (get_tools_visits skills name) as (visited & Htools & _ & Hvis & _).
  exists order, missing, (visited ≫= tools_of skills).
  split_and!; [done..|].
  intros tool (x & Htool & Hx)%list_elem_of_bind.
  apply Hvis in Hx as [Hreg Hreach].
  unfold tools_of in Htool.
  destruct (PyDict.get skills x) as [skill|] eqn:Hget;
    [|by apply elem_of_nil in Htool].
  exists x, skill. split_and!; [|done..].
  apply (run_order_complete skills _ _ _ Hrun); [by rewrite Hget|].
  eapply rtc_subrel; [|exact Hreach]. intros ? ?. apply auto_edge_ordering_edge.
Qed.

(** ** A registry that passes both checks *)

Lemma tc_weaken (R R' : relation string) (x y : string) :
  (∀ a b, R a b → R' a b) → tc R x y → tc R' x y.
Proof.
  intros Hsub. induction 1 as [x y Hxy|x y z Hxy _ IH].
  - apply tc_once. by apply Hsub.
  - eapply tc_l; [|exact IH]. by apply Hsub.
Qed.

Section clean_registry.
Context (environ : gmap string string) (skills : registry).

Lemma valid_deps_registered n skill dep :
  validate_skill environ n skills = [] →
  PyDict.get skills n = Some skill →
  dep ∈ deps_skills (meta_dependencies skill) →
  is_Some (PyDict.get skills (dep_name dep)).
Proof.
  intros Hvalid Hget Hin. rewrite (validate_skill_found _ _ _ _ Hget) in Hvalid.
  apply app_eq_nil in Hvalid as [Hdeps _].
  eapply dep_errors_nil, bind_nil_iff; done.
Qed.

Hypothesis Hvalid :
  ∀ n, is_Some (PyDict.get skills n) → validate_skill environ n skills = [].

Lemma valid_ordering_any s d : ordering_edge skills s d → any_edge skills s d.
Proof.
  intros (skill & dep & Hget & Hin & Hname & _). exists skill, dep.
  split_and!; [done..|]. subst d. apply PyDictFacts.mem_true.
  eapply valid_deps_registered; [apply Hvalid| |]; by rewrite ?Hget.
Qed.

Lemma valid_reach_registered name d :
  is_Some (PyDict.get skills name) → rtc (ordering_edge skills) name d →
  is_Some (PyDict.get skills d).
Proof.
  intros Hreg Hreach. destruct (rtc_inv_r _ _ Hreach) as [<-|(y & _ & Hedge)];
    [done|].
  apply valid_ordering_any in Hedge as (_ & _ & _ & _ & _ & Hmem).
  by apply PyDictFacts.mem_true.
Qed.
End clean_registry.

(** X14: when [check_all_dependencies] finds nothing to report and
    [detect_circular_dependencies] finds no cycle, then for every registered
    skill [resolve_skill_dependencies] returns an empty [missing] list and
    an order that ends with the skill and in which every required or
    auto-load dependency, direct or indirect, of a listed skill comes
    ahead of it. *)
Theorem checked_registry_resolves_cleanly
    (environ : gmap string string) (skills : registry) (name : string) :
  check_all_dependencies environ skills = [] →
  detect_circular_dependencies skills = Some [] →
  is_Some (PyDict.get skills name) →
  ∃ order,
    resolve_skill_dependencies name skills = Some (order, []) ∧
    last order = Some name ∧
    ∀ s d, s ∈ order → tc (ordering_edge skills) s d → before order d s.
Proof.
  intros Hcheck Hdetect Hname.
  assert (∀ n, is_Some (PyDict.get skills n) →
               validate_skill environ n skills = []) as Hvalid.
  { intros n Hreg.
    pose proof (check_all_dependencies_get environ skills n) as Hget.
    rewrite Hcheck in Hget. simpl in Hget.
    destruct (validate_skill environ n skills) eqn:Hv; [done|].
    rewrite decide_True in Hget; [done|]. split; done. }
  assert (∀ x, ¬ tc (ordering_edge skills) x x) as Hacyclic.
  { intros x Hcycle.
    assert (tc (any_edge skills) x x) as Hany.
    { eapply tc_weaken; [|exact Hcycle]. intros ? ?.
      by apply (valid_ordering_any environ). }
    apply (detect_reports_exactly skills _ x Hdetect) in Hany
      as (c & Hc%elem_of_nil & _). done. }
  destruct (resolve_skill_dependencies_total skills name)
    as (order & missing & _ & _ & Hrun).
  assert (missing = []) as ->.
  { destruct missing as [|msg rest] eqn:Hmissing; [done|]. exfalso.
    destruct (resolve_run_facts skills _ _ _ Hrun)
      as (_ & _ & _ & _ & _ & Htruth & _).
    destruct (Htruth msg) as [(e & -> & _)|(e & -> & _)];
      [apply elem_of_cons; by left| |].
    - destruct (run_circular_message skills _ _ _ Hrun e) as (_ & _ & Hcyc);
        [apply elem_of_cons; by left|].
      by apply (Hacyclic e).
    - destruct (run_not_found_message skills _ _ _ Hrun e) as (Hnone & Hreach);
        [apply elem_of_cons; by left|].
      destruct (valid_reach_registered environ skills Hvalid name e Hname Hreach)
        as [? ?]. congruence. }
  exists order. split; [done|].
  destruct (resolve_run_facts skills _ _ _ Hrun) as (_ & Hin & Hlast & _).
  split; [by apply Hlast|].
  intros s d [i Hi]%list_elem_of_lookup Hsd.
  assert (is_Some (PyDict.get skills d)) as Hd.
  { apply (valid_reach_registered environ skills Hvalid s d).
    - by eapply tc_ordering_edge_source.
    - by apply tc_rtc. }
  destruct (run_topological skills _ _ _ Hrun) with (a := s) (b := d) (i := i)
    as (j & Hji & Hj); [by intros ? ?%elem_of_nil|done..|].
  by exists j, i.
Qed.

Lemma checked_registry_resolves_cleanly_witness :
  ∃ order,
    resolve_skill_dependencies "A" diamond_registry = Some (order, []) ∧
    last order = Some "A" ∧
    ∀ s d, s ∈ order → tc (ordering_edge diamond_registry) s d → before order d s.
Proof.
  apply (checked_registry_resolves_cleanly ∅ diamond_registry "A").
  - reflexivity.
  - reflexivity.
  - eexists. reflexivity.
Defined.

(** X15: a name that is not registered is an error for the validator and
    the resolver but not for the tool aggregator: [validate_skill] and
    [resolve_skill_dependencies] each return a single not-found message
    (and an empty order), while [get_tools_for_skill] returns no tools and
    [generate_tool_manifest] a manifest with no tools and an empty index. *)
Theorem unregistered_skill_name
    (environ : gmap string string) (skills : registry) (name : string) :
  PyDict.get skills name = None →
  validate_skill environ name skills = ["Skill '" +:+ name +:+ "' not found"] ∧
  resolve_skill_dependencies name skills =
    Some ([], ["Skill not found: " +:+ name]) ∧
  get_tools_for_skill name skills = Some [] ∧
  generate_tool_manifest name skills =
    Some {| manifest_skill := name; manifest_tools := [];
            manifest_tool_index := [] |}.
Proof.
  intros Hnone.
  assert (get_tools_for_skill name skills = Some []) as Htools.
  { unfold get_tools_for_skill. cbn [collect_tools].
    rewrite decide_False by set_solver. by rewrite Hnone. }
  split_and!.
  - unfold validate_skill. by rewrite Hnone.
  - unfold resolve_skill_dependencies.
    rewrite resolve_not_found by (done || set_solver). done.
  - done.
  - unfold generate_tool_manifest. by rewrite Htools.
Qed.

Lemma unregistered_skill_name_witness :
  validate_skill ∅ "Z" chain_registry = ["Skill 'Z' not found"] ∧
  resolve_skill_dependencies "Z" chain_registry =
    Some ([], ["Skill not found: Z"]) ∧
  get_tools_for_skill "Z" chain_registry = Some [] ∧
  generate_tool_manifest "Z" chain_registry =
    Some {| manifest_skill := "Z"; manifest_tools := [];
            manifest_tool_index := [] |}.
Proof.
  apply (unregistered_skill_name ∅ chain_registry "Z"). reflexivity.
Defined.

(** ** The diagram *)

Section graph_lines.
Context (skills : registry).











End graph_lines.


(** ** From the frontmatter to the validator: tool entries *)

Section parsed_tools.
Context (environ : gmap string string) (skills : registry).





End parsed_tools.



(** ** The cycle detector: one traversal per skill, reports accumulate *)

Section dfs_reports.
Context (skills : registry).

(** A traversal only appends to the list of cycles; what it appends does
    not depend on the cycles reported before. *)
Lemma dfs_deps_frame rec deps (c0 : list (list string)) :
  (∀ name v c,
     rec name (v, c0 ++ c) = prod_map id (app c0) <$> rec name (v, c)) →
  ∀ v c,
    dfs_deps rec skills deps (v, c0 ++ c) =
    prod_map id (app c0) <$> dfs_deps rec skills deps (v, c).
Proof.
  intros Hrec. induction deps as [|dep deps IH]; intros v c; simpl; [done|].
  destruct (PyDict.mem skills (dep_name dep)); [|apply IH].
  rewrite Hrec. destruct (rec (dep_name dep) (v, c)) as [[v1 c1]|]; simpl; [|done].
  apply IH.
Qed.

Lemma dfs_frame fuel name path v (c0 c : list (list string)) :
  dfs fuel skills name path (v, c0 ++ c) =
  prod_map id (app c0) <$> dfs fuel skills name path (v, c).
Proof.
  revert name path v c. induction fuel as [|fuel IH]; intros name path v c;
    [done|].
  cbn [dfs]. destruct (decide (name ∈ path)).
  { simpl. by rewrite app_assoc. }
  destruct (decide (name ∈ v)); [done|].
  destruct (PyDict.get skills name) as [skill|]; [|done].
  apply dfs_deps_frame. intros name' v' c'. apply IH.
Qed.

Lemma dfs_from_cycle_node_adds A cycles visited' cycles' :
  tc (any_edge skills) A A →
  dfs (S (length skills)) skills A [] (∅, cycles) = Some (visited', cycles') →
  (length cycles < length cycles')%nat.
Proof.
  intros Hcycle. rewrite <- (app_nil_r cycles) at 1. rewrite dfs_frame.
  destruct (dfs (S (length skills)) skills A [] (∅, [])) as [[v new]|] eqn:Hrun;
    [|done].
  simpl. intros [= <- <-].
  destruct (dfs_from_cycle_node skills _ A [] v new Hcycle Hrun) as (c & Hc & _).
  rewrite length_app. destruct new; [by apply elem_of_nil in Hc|]. simpl. lia.
Qed.

Lemma detect_from_count names cycles cycles' (l : list string) :
  detect_from skills names cycles = Some cycles' →
  NoDup l →
  (∀ x, x ∈ l → x ∈ names ∧ tc (any_edge skills) x x) →
  (length cycles + length l ≤ length cycles')%nat.
Proof.
  revert cycles l. induction names as [|k names IH]; intros cycles l;
    cbn [detect_from].
  - intros [= <-] _ Hl. destruct l as [|x l]; [simpl; lia|].
    destruct (Hl x) as [?%elem_of_nil _]; [apply elem_of_cons; by left|done].
  - destruct (dfs _ _ _ _ _) as [[v1 c1]|] eqn:Hrun; [|done]. simpl.
    intros Hloop Hnd Hl.
    destruct (dfs_sound skills _ _ _ _ _ _ _ Hrun) as (new & Hc1 & _).
    destruct (decide (k ∈ l)) as [Hk|Hk].
    + destruct (proj1 (elem_of_Permutation l k) Hk) as [l' Hperm].
      rewrite Hperm in Hnd. apply NoDup_cons in Hnd as [Hkl' Hnd'].
      assert (length cycles < length c1)%nat as Hlt.
      { eapply dfs_from_cycle_node_adds; [|exact Hrun]. by apply Hl. }
      pose proof (IH c1 l' Hloop Hnd') as Hcount.
      rewrite (Permutation_length Hperm). simpl.
      cut (length c1 + length l' ≤ length cycles')%nat; [lia|].
      apply Hcount. intros x Hx.
      destruct (Hl x) as [[->|?]%elem_of_cons ?]; [|done..].
      rewrite Hperm. apply elem_of_cons. by right.
    + pose proof (IH c1 l Hloop Hnd) as Hcount.
      cut (length c1 + length l ≤ length cycles')%nat.
      { subst c1. rewrite length_app. lia. }
      apply Hcount. intros x Hx.
      destruct (Hl x Hx) as [[->|?]%elem_of_cons ?]; done.
Qed.
End dfs_reports.

(** X18: in [detect_circular_dependencies] the traversal started from a
    skill that lies on a cycle of declared dependencies between registered
    skills appends at least one report to the list of cycles, whatever was
    reported before it; the list returned therefore has at least as many
    entries as there are distinct skills lying on cycles. *)
Theorem detect_circular_dependencies_repeats (skills : registry) :
  (∀ A cycles,
     tc (any_edge skills) A A →
     ∃ visited new,
       dfs (S (length skills)) skills A [] (∅, cycles) =
         Some (visited, cycles ++ new) ∧
       new ≠ []) ∧
  ∃ cycles,
    detect_circular_dependencies skills = Some cycles ∧
    ∀ l, NoDup l → (∀ x, x ∈ l → tc (any_edge skills) x x) →
         (length l ≤ length cycles)%nat.
Proof.
  split.
  - intros A cycles Hcycle.
    destruct (dfs_total skills (S (length skills)) A [] (∅, cycles))
      as ([visited cycles'] & Hrun & _).
    { simpl. pose proof (size_dom_difference_le skills ∅). lia. }
    destruct (dfs_sound skills _ _ _ _ _ _ _ Hrun) as (new & -> & _).
    exists visited, new. split; [done|]. intros ->.
    pose proof (dfs_from_cycle_node_adds skills _ _ _ _ Hcycle Hrun) as Hlt.
    rewrite app_nil_r in Hlt. lia.
  - destruct (detect_from_total skills (PyDict.keys skills) []) as [cycles Hrun].
    exists cycles. split; [done|]. intros l Hnd Hl.
    change (length (@nil (list string)) + length l ≤ length cycles)%nat.
    eapply detect_from_count; [exact Hrun|done|].
    intros x Hx. split; [|by apply Hl].
    apply PyDictFacts.elem_of_keys.
    specialize (Hl x Hx).
    inversion Hl as [? ? (sk & ? & ? & _)|? ? ? (sk & ? & ? & _)]; by exists sk.
Qed.

Lemma detect_circular_dependencies_repeats_witness :
  (∃ visited new,
     dfs (S (length cycle_registry)) cycle_registry "A" [] (∅, []) =
       Some (visited, [] ++ new) ∧
     new ≠ []) ∧
  ∃ cycles,
    detect_circular_dependencies cycle_registry = Some cycles ∧
    (2 ≤ length cycles)%nat.
Proof.
  assert (any_edge cycle_registry "A" "B") as HAB.
  { exists (sample_skill "A" [sample_dep "B" false true] [sample_tool "a" ["run"]]),
      (sample_dep "B" false true).
    split_and!; [reflexivity| |reflexivity..].
    apply list_elem_of_singleton. reflexivity. }
  assert (any_edge cycle_registry "B" "A") as HBA.
  { exists (sample_skill "B" [sample_dep "A" false true] [sample_tool "b" ["run"]]),
      (sample_dep "A" false true).
    split_and!; [reflexivity| |reflexivity..].
    apply list_elem_of_singleton. reflexivity. }
  assert (tc (any_edge cycle_registry) "A" "A") as HA.
  { eapply tc_l; [exact HAB|]. by apply tc_once. }
  assert (tc (any_edge cycle_registry) "B" "B") as HB.
  { eapply tc_l; [exact HBA|]. by apply tc_once. }
  destruct (detect_circular_dependencies_repeats cycle_registry)
    as (Hadds & cycles & Hrun & Hcount).
  split; [exact (Hadds "A" [] HA)|].
  exists cycles. split; [done|].
  apply (Hcount ["A"; "B"]).
  - apply NoDup_cons. split; [|apply NoDup_singleton].
    intros Hin%list_elem_of_singleton. discriminate Hin.
  - intros x [->|Hx]%elem_of_cons; [done|].
    apply list_elem_of_singleton in Hx. by subst x.
Defined.
